(** * PyRadio: signal processor and socket sessions

    A shallow embedding of [modules/modulator/modulator.py],
    [modules/socket/node.py], [modules/socket/client.py],
    [modules/socket/server.py] and the audio loops of
    [modules/core/threads.py] and [modules/core/options.py], with the
    properties of the specification stated over it.

    Conventions.
    - A NumPy array is a flat list tagged with its dtype.  [int16] samples
      are integers with the two's complement wrap-around written out;
      [float64] arithmetic is idealised as real arithmetic (no rounding,
      no NaN, no infinities).
    - A byte buffer is a list of integers in [0, 256).
    - A Python [str] is a [string] that holds its UTF-8 code units, and
      travels as these; bytes that are not well-formed UTF-8 decode to
      no [str].
    - What depends on the machine or on the tables of the interpreter
      (name resolution, the system's reasons to refuse a bind, [int] on
      a [str] outside ASCII) is an argument of the methods that ask for
      it.
    - Methods that touch sockets are functions from a state to an outcome
      and a new state: the state survives a raised exception, as the
      attributes of a Python object do. *)

From Stdlib Require Import ZArith List Lia Reals Lra String Ascii Bool.
From stdpp Require Import base gmap strings.
Import ListNotations.

(** ** Exceptions *)

Inductive exn : Type :=
  (* modules/socket/error.py *)
  | SocketError
  | ClientDisconnectedError
  | ConnectionTimeoutError
  | InvalidClientError
  | InvalidNameError
  | InvalidPortError
  | PortAlreadyUsedError
  | PortOutOfRangeError
  | UndefinedNameError
  | UnknownHostError
  (* modules/modulator/error.py *)
  | InvalidModulationTypeError
  | InvalidSignalTypeError
  (* builtins reached by the modelled code *)
  | OSError
  | BrokenPipeError
  | ConnectionResetError
  | OverflowError
  | ValueError
  | KeyError
  | TypeError
  | AttributeError
  | UnicodeError
  | UnicodeDecodeError
  | gaierror.

(** [except OSError] also catches its subclasses; [socket.gaierror], the
    failure of a name lookup, is one of them. *)
Definition is_OSError (e : exn) : bool :=
  match e with
  | OSError | BrokenPipeError | ConnectionResetError | gaierror => true
  | _ => false
  end.

(** [except ValueError] also catches [UnicodeError] and its subclass
    [UnicodeDecodeError]. *)
Definition is_ValueError (e : exn) : bool :=
  match e with
  | ValueError | UnicodeError | UnicodeDecodeError => true
  | _ => false
  end.

(** The result of a call: a value, a raised exception, or a wait that
    never ends. *)
Inductive outcome (A : Type) : Type :=
  | Returns (a : A)
  | Raises (e : exn)
  | Hangs.
Arguments Returns {A} a.
Arguments Raises {A} e.
Arguments Hangs {A}.

(** ** What the program cannot see

    The answers that depend on the machine and on the interpreter, not on
    the program: how a host name is taken by the socket module, whether
    the system lets an address be bound, and what [int] makes of a [str]
    that is not plain ASCII. *)

Module Env.

(** What becomes of the host of an address [(host, port)]: it holds a
    null character ([TypeError]), it has characters outside ASCII that the
    [idna] codec refuses ([UnicodeError]), no address is found for it
    ([socket.gaierror]), or it names an address. *)
Inductive host_status : Type :=
  | NulInHost
  | NotIdna
  | NoAddress
  | Resolves.

Record t : Type := mk {
  lookup_host : string -> host_status;
  (** the system refuses to bind this address for a reason of its own
      (an address that is not local, a port reserved to the
      administrator) *)
  bind_refused : string -> Z -> bool;
  (** [int(s)] for a [str] with characters outside ASCII, or too long
      for the interpreter's limit on conversions: [None] stands for
      [ValueError] *)
  int_beyond : string -> option Z
}.

End Env.

(** ** NumPy arrays *)

Module Np.

Local Open Scope Z_scope.

(** Two's complement reduction to 16 bits. *)
Definition wrap16 (z : Z) : Z := (z + 32768) mod 65536 - 32768.

Definition is_int16 (z : Z) : Prop := -32768 <= z < 32768.

Definition is_byte (z : Z) : Prop := 0 <= z < 256.

(** A flat array with its dtype. *)
Inductive ndarray : Type :=
  | Int16Array (xs : list Z)
  | Float64Array (xs : list R).

Definition size (a : ndarray) : nat :=
  match a with
  | Int16Array xs => length xs
  | Float64Array xs => length xs
  end.

(** The numeric values of an array, whatever its dtype. *)
Definition values (a : ndarray) : list R :=
  match a with
  | Int16Array xs => map IZR xs
  | Float64Array xs => xs
  end.

(** Elementwise binary operation on arrays of one length. *)
Definition zip_with (f : R -> R -> R) (a b : list R) : list R :=
  map (fun p => f (fst p) (snd p)) (combine a b).

(** [np.multiply(a, b)] with [b] of dtype float64: the result is float64. *)
Definition multiply (a : ndarray) (b : list R) : ndarray :=
  Float64Array (zip_with Rmult (values a) b).

(** [np.add(a, b)] with [b] of dtype float64. *)
Definition add (a : ndarray) (b : list R) : ndarray :=
  Float64Array (zip_with Rplus (values a) b).

(** [np.divide(a, k)]: true division, always float64. *)
Definition divide (a : ndarray) (k : R) : ndarray :=
  Float64Array (map (fun x => (x / k)%R) (values a)).

(** [np.abs(a)] keeps the dtype: on int16 the result is reduced to 16
    bits again. *)
Definition abs (a : ndarray) : ndarray :=
  match a with
  | Int16Array xs => Int16Array (map (fun z => wrap16 (Z.abs z)) xs)
  | Float64Array xs => Float64Array (map Rabs xs)
  end.

(** Truncation towards zero, the C conversion of a double to an integer. *)
Definition trunc (r : R) : Z :=
  if Rle_dec 0 r then Int_part r else - Int_part (- r).

(** [a.astype(np.int16)]. *)
Definition astype_int16 (a : ndarray) : list Z :=
  match a with
  | Int16Array xs => xs
  | Float64Array xs => map (fun r => wrap16 (trunc r)) xs
  end.

(** The two bytes of an int16, least significant first. *)
Definition int16_bytes (z : Z) : list Z :=
  [Z.land z 255; Z.land (Z.shiftr z 8) 255].

(** [a.tobytes()] for an int16 array. *)
Definition tobytes (xs : list Z) : list Z := flat_map int16_bytes xs.

Definition int16_of_bytes (lo hi : Z) : Z :=
  wrap16 (Z.lor lo (Z.shiftl hi 8)).

(** [np.frombuffer(b, np.int16)]: [None] stands for the [ValueError]
    raised when the buffer size is not a multiple of the element size. *)
Fixpoint frombuffer (b : list Z) : option (list Z) :=
  match b with
  | [] => Some []
  | [_] => None
  | lo :: hi :: rest =>
      match frombuffer rest with
      | Some xs => Some (int16_of_bytes lo hi :: xs)
      | None => None
      end
  end.

Local Open Scope R_scope.

Definition sum (xs : list R) : R := fold_right Rplus 0 xs.

(** [np.sinc(x)] = sin(pi x) / (pi x), and 1 at 0. *)
Definition sinc (x : R) : R :=
  if Req_dec_T x 0 then 1 else sin (PI * x) / (PI * x).

(** [scipy.signal.windows.blackmanharris(M, sym=True)]. *)
Definition blackmanharris (M : nat) : list R :=
  if (M <=? 1)%nat then repeat 1 M
  else
    map (fun n =>
           let x := 2 * PI * INR n / (INR M - 1) in
           0.35875 - 0.48829 * cos x + 0.14128 * cos (2 * x)
           - 0.01168 * cos (3 * x))
        (seq 0 M).

(** [scipy.signal.firwin(numtaps, cutoff, window='blackmanharris',
    pass_zero='lowpass', fs=fs)]: the windowed ideal low-pass response,
    scaled to unit gain at frequency zero. *)
Definition firwin (numtaps : nat) (cutoff fs : R) : list R :=
  let c := cutoff / (fs / 2) in
  let alpha := (INR numtaps - 1) / 2 in
  let m := map (fun k => INR k - alpha) (seq 0 numtaps) in
  let h := map (fun x => c * sinc (c * x)) m in
  let hw := zip_with Rmult h (blackmanharris numtaps) in
  let s := sum hw in
  map (fun x => x / s) hw.

(** The full discrete convolution: entry [k] is the sum of
    [a[i] * v[k - i]]. *)
Definition convolve_full (a v : list R) : list R :=
  map (fun k =>
         sum (map (fun i =>
                     if (i <=? k)%nat
                     then nth i a 0 * nth (k - i) v 0
                     else 0)
                  (seq 0 (length a))))
      (seq 0 (length a + length v - 1)).

(** [np.convolve(a, v, 'same')]: the central part of the full
    convolution, as long as the longer argument; an empty argument
    raises [ValueError]. *)
Definition convolve_same (a v : list R) : outcome (list R) :=
  match a, v with
  | [], _ | _, [] => Raises ValueError
  | _, _ =>
      let n := Nat.min (length a) (length v) in
      Returns (firstn (Nat.max (length a) (length v))
                      (skipn ((n - 1) / 2) (convolve_full a v)))
  end.

(** A two-dimensional array, row by row, with its dtype. *)
Inductive ndarray2 : Type :=
  | Int16Rows (rows : list (list Z))
  | Float64Rows (rows : list (list R)).

(** The first [r] rows of [c] entries of a flat sequence. *)
Fixpoint rows_of {A : Type} (r c : nat) (l : list A) : list (list A) :=
  match r with
  | O => []
  | S r' => firstn c l :: rows_of r' c (skipn c l)
  end.

(** [np.reshape(a, (r, c))]: the entries in row-major order; a shape that
    does not hold exactly the entries of [a] raises [ValueError]. *)
Definition reshape (a : ndarray) (r c : nat) : outcome ndarray2 :=
  if (r * c =? size a)%nat then
    Returns (match a with
             | Int16Array xs => Int16Rows (rows_of r c xs)
             | Float64Array xs => Float64Rows (rows_of r c xs)
             end)
  else Raises ValueError.

(** [a.astype(np.int16)] on a two-dimensional array. *)
Definition astype_int16_rows (a : ndarray2) : list (list Z) :=
  match a with
  | Int16Rows rows => rows
  | Float64Rows rows => map (map (fun r => wrap16 (trunc r))) rows
  end.

End Np.

(** ** modules/audio/settings.py, modules/socket/settings.py,
       modules/modulator/settings.py *)

Definition PACKAGE_SIZE : nat := 1024 * 4.
Definition CHANNELS : nat := 2.
Definition CHUNK_SIZE : nat := PACKAGE_SIZE / CHANNELS / 2.
Definition FRAME_RATE : R := 44100.
Definition AM_CARRIER_FREQ : R := 3000.
Definition CUTOFF : R := 1000.
Definition BACKLOG_SIZE : nat := 10.
Definition DEFAULT_PORT : Z := 33000.

(** modules/formatter/colors.py: ANSI escape sequences. *)
Definition ESC : ascii := ascii_of_nat 27.
Definition RED : string := String ESC "[91m".
Definition GREEN : string := String ESC "[92m".
Definition YELLOW : string := String ESC "[93m".
Definition BLUE : string := String ESC "[94m".
Definition MAGENTA : string := String ESC "[95m".
Definition CYAN : string := String ESC "[96m".

Definition COLORS : list string := [RED; GREEN; YELLOW; BLUE; MAGENTA; CYAN].

(** Modelled from the spec: [modules/modulator/constants.py] is not among
    the sources; the handshake section of the specification gives the three
    modulation tags as ["am"], ["am-sc"] and ["none"]. *)
Definition AM : string := "am".
Definition AM_SC : string := "am-sc".
Definition NO_MOD : string := "none".

(** The carrier of the specification at sample index [t]:
    cos(2 pi f_c t) with f_c = 3000. *)
Definition carrier_at (t : nat) : R := cos (2 * PI * INR t * 3000)%R.

(** ** modules/modulator/modulator.py *)

Module Modulator.

Import Np.

(** What a caller may pass as [signal]. *)
Inductive pyobj : Type :=
  | PyBytes (b : list Z)
  | PyArray (a : ndarray)
  | PyOther.

Record t : Type := mk {
  modulation : string;
  signal : ndarray
}.

Definition modulations : list string := [AM; AM_SC; NO_MOD].

Definition check_modulation (m : string) : outcome unit :=
  if existsb (String.eqb m) modulations then Returns tt
  else Raises InvalidModulationTypeError.

Definition set_signal (s : pyobj) : outcome ndarray :=
  match s with
  | PyOther => Raises InvalidSignalTypeError
  | PyBytes b =>
      match frombuffer b with
      | Some xs => Returns (Int16Array xs)
      | None => Raises ValueError
      end
  | PyArray a => Returns a
  end.

(** [Modulator(modulation, signal)]. *)
Definition init (m : string) (s : pyobj) : outcome t :=
  match check_modulation m with
  | Returns _ =>
      match set_signal s with
      | Returns a => Returns (mk m a)
      | Raises e => Raises e
      | Hangs => Hangs
      end
  | Raises e => Raises e
  | Hangs => Hangs
  end.

Definition am_carrier (self : t) : list R :=
  map (fun t => cos (2 * PI * INR t * AM_CARRIER_FREQ)%R)
      (seq 0 (size (signal self))).

Definition demodulate (self : t) : t :=
  if String.eqb (modulation self) AM then
    mk (modulation self) (abs (signal self))
  else if String.eqb (modulation self) AM_SC then
    let carrier := am_carrier self in
    mk (modulation self) (multiply (signal self) carrier)
  else self.

Definition encode (self : t) : list Z :=
  tobytes (astype_int16 (signal self)).

Definition lowpass_signal (sig : ndarray) (cutoff : R) : outcome ndarray :=
  let lp := firwin (size sig) cutoff FRAME_RATE in
  match convolve_same (values sig) lp with
  | Returns out => Returns (Float64Array out)
  | Raises e => Raises e
  | Hangs => Hangs
  end.

Definition lowpass (self : t) : outcome t :=
  match lowpass_signal (signal self) CUTOFF with
  | Returns sig => Returns (mk (modulation self) sig)
  | Raises e => Raises e
  | Hangs => Hangs
  end.

Definition modulate (self : t) : t :=
  if String.eqb (modulation self) AM then
    let carrier := am_carrier self in
    let s1 := multiply (signal self) carrier in
    let s2 := add s1 carrier in
    let s3 := divide s2 2 in
    mk (modulation self) s3
  else if String.eqb (modulation self) AM_SC then
    let carrier := am_carrier self in
    mk (modulation self) (multiply (signal self) carrier)
  else self.

(** [output()]: the signal as frames of [CHANNELS] samples. *)
Definition output (self : t) : outcome (list (list Z)) :=
  match reshape (signal self) (size (signal self) / CHANNELS) CHANNELS with
  | Returns a => Returns (astype_int16_rows a)
  | Raises e => Raises e
  | Hangs => Hangs
  end.

End Modulator.

(** ** The operating system's sockets *)

Module Net.

Abbreviation sockid := nat.

(** What the next [recv] on a connection finds. *)
Inductive recv_ev : Type :=
  | Data (b : list Z)
  | RecvFails (e : exn).

(** How the kernel answers the next write on a connection. *)
Inductive write_ev : Type :=
  | Accepts (n : nat)
  | WriteFails (e : exn).

Record sock : Type := mkSock {
  sk_closed : bool;
  (** [Some n] once [listen(n)] was called *)
  sk_backlog : option nat;
  (** a listening socket: the connections that will arrive, each with
      the number of polls that time out before it is ready *)
  sk_pending : list (nat * sockid);
  (** a connection: what the peer sends; when exhausted the peer has shut
      the connection down and [recv] returns the empty buffer *)
  sk_rx : list recv_ev;
  (** a connection: the answers to the next writes; when exhausted every
      write is accepted whole *)
  sk_tx : list write_ev;
  (** a connection: the bytes written so far *)
  sk_wire : list Z
}.

Definition new_sock : sock := mkSock false None [] [] [] [].

(** The system calls made, oldest first. *)
Inductive event : Type :=
  | EvSelect (l : sockid) (ready : bool)
  | EvAccept (l c : sockid)
  | EvRecv (s : sockid) (r : outcome (list Z))
  | EvWrite (s : sockid) (r : outcome nat)
  | EvClose (s : sockid)
  | EvBind (s : sockid) (port : Z)
  | EvListen (s : sockid) (backlog : nat).

Record world : Type := mkWorld {
  socks : gmap nat sock;
  next_id : sockid;
  ports_in_use : list Z;
  trace : list event
}.

Definition emit (ev : event) (w : world) : world :=
  mkWorld (socks w) (next_id w) (ports_in_use w) (trace w ++ [ev]).

Definition set_sock (s : sockid) (k : sock) (w : world) : world :=
  mkWorld (<[s := k]> (socks w)) (next_id w) (ports_in_use w) (trace w).

(** A descriptor that can be used: known and not closed. *)
Definition live (s : sockid) (w : world) : option sock :=
  match socks w !! s with
  | Some k => if sk_closed k then None else Some k
  | None => None
  end.

(** [socket()]; the process is taken to have descriptors left, so that
    the call returns. *)
Definition sock_new (w : world) : sockid * world :=
  (next_id w,
   mkWorld (<[next_id w := new_sock]> (socks w)) (S (next_id w))
           (ports_in_use w) (trace w)).

(** [s.recv(n)] *)
Definition sock_recv (s : sockid) (n : nat) (w : world)
  : outcome (list Z) * world :=
  match live s w with
  | None => (Raises OSError, emit (EvRecv s (Raises OSError)) w)
  | Some k =>
      match sk_rx k with
      | [] => (Returns [], emit (EvRecv s (Returns [])) w)
      | RecvFails e :: rx =>
          let k' := mkSock (sk_closed k) (sk_backlog k) (sk_pending k)
                           rx (sk_tx k) (sk_wire k) in
          (Raises e, emit (EvRecv s (Raises e)) (set_sock s k' w))
      | Data b :: rx =>
          let got := firstn n b in
          let rx' := match skipn n b with
                     | [] => rx
                     | rest => Data rest :: rx
                     end in
          let k' := mkSock (sk_closed k) (sk_backlog k) (sk_pending k)
                           rx' (sk_tx k) (sk_wire k) in
          (Returns got, emit (EvRecv s (Returns got)) (set_sock s k' w))
      end
  end.

(** [s.send(data)]: one write; the number of bytes accepted. *)
Definition sock_send (s : sockid) (data : list Z) (w : world)
  : outcome nat * world :=
  match live s w with
  | None => (Raises OSError, emit (EvWrite s (Raises OSError)) w)
  | Some k =>
      match sk_tx k with
      | [] =>
          let k' := mkSock (sk_closed k) (sk_backlog k) (sk_pending k)
                           (sk_rx k) [] (sk_wire k ++ data) in
          (Returns (length data),
           emit (EvWrite s (Returns (length data))) (set_sock s k' w))
      | WriteFails e :: tx =>
          let k' := mkSock (sk_closed k) (sk_backlog k) (sk_pending k)
                           (sk_rx k) tx (sk_wire k) in
          (Raises e, emit (EvWrite s (Raises e)) (set_sock s k' w))
      | Accepts n :: tx =>
          let put := firstn n data in
          let k' := mkSock (sk_closed k) (sk_backlog k) (sk_pending k)
                           (sk_rx k) tx (sk_wire k ++ put) in
          (Returns (length put),
           emit (EvWrite s (Returns (length put))) (set_sock s k' w))
      end
  end.

(** The loop of [s.sendall(data)]: write, drop what was accepted, and
    write again while something is left.  It runs down the answers of
    the kernel; once they are exhausted the rest is accepted whole. *)
Fixpoint sendall_loop (s : sockid) (tx : list write_ev) (data : list Z)
    (w : world) : outcome unit * world :=
  match tx with
  | [] =>
      match sock_send s data w with
      | (Returns _, w') => (Returns tt, w')
      | (Raises e, w') => (Raises e, w')
      | (Hangs, w') => (Hangs, w')
      end
  | _ :: tx' =>
      match sock_send s data w with
      | (Returns n, w') =>
          match skipn n data with
          | [] => (Returns tt, w')
          | rest => sendall_loop s tx' rest w'
          end
      | (Raises e, w') => (Raises e, w')
      | (Hangs, w') => (Hangs, w')
      end
  end.

(** [s.sendall(data)]: returns [None] on success. *)
Definition sock_sendall (s : sockid) (data : list Z) (w : world)
  : outcome unit * world :=
  match live s w with
  | None => (Raises OSError, emit (EvWrite s (Raises OSError)) w)
  | Some k => sendall_loop s (sk_tx k) data w
  end.

(** The next write on the connection is not refused. *)
Definition accepts_write (k : sock) : bool :=
  match sk_tx k with
  | WriteFails _ :: _ => false
  | _ => true
  end.

(** The number of bytes that the next write puts on the wire. *)
Definition written (k : sock) (data : list Z) : nat :=
  match sk_tx k with
  | Accepts m :: _ => length (firstn m data)
  | _ => length data
  end.

(** The socket exists and is closed. *)
Definition closed_in (x : nat) (w : world) : Prop :=
  exists k, socks w !! x = Some k /\ sk_closed k = true.

(** The kernel refuses no write of this script. *)
Definition all_accepted (tx : list write_ev) : Prop :=
  Forall (fun ev => exists n, ev = Accepts n) tx.

(** [s.close()]: closing twice is harmless. *)
Definition sock_close (s : sockid) (w : world) : world :=
  match socks w !! s with
  | Some k =>
      let k' := mkSock true (sk_backlog k) (sk_pending k)
                       (sk_rx k) (sk_tx k) (sk_wire k) in
      emit (EvClose s) (set_sock s k' w)
  | None => emit (EvClose s) w
  end.

Definition valid_port (p : Z) : bool := ((0 <=? p) && (p <=? 65535))%Z.

Definition port_taken (p : Z) (w : world) : bool :=
  existsb (Z.eqb p) (ports_in_use w).

(** The port fits the C [int] that the socket module reads it into. *)
Definition fits_c_int (p : Z) : bool :=
  ((-2147483648 <=? p) && (p <=? 2147483647))%Z.

(** [s.bind((host, port))].  The socket module reads the address before
    any system call, in this order: the host is taken as a name
    ([TypeError] for a null character, [UnicodeError] when the [idna]
    codec refuses it); the port is read into a C [int] ([OverflowError]
    when it does not fit); the host is resolved ([socket.gaierror], an
    [OSError], when no address is found); the port is checked against
    0..65535 ([OverflowError]).  The system then refuses with [OSError] a
    descriptor that is closed, a port that another listener holds, and
    whatever else it has a reason of its own to refuse. *)
Definition sock_bind (env : Env.t) (s : sockid) (host : string) (p : Z)
    (w : world) : outcome unit * world :=
  match Env.lookup_host env host with
  | Env.NulInHost => (Raises TypeError, w)
  | Env.NotIdna => (Raises UnicodeError, w)
  | st =>
      if negb (fits_c_int p) then (Raises OverflowError, w)
      else
        match st with
        | Env.NoAddress => (Raises gaierror, w)
        | _ =>
            if negb (valid_port p) then (Raises OverflowError, w)
            else
              match live s w with
              | None => (Raises OSError, w)
              | Some _ =>
                  if (port_taken p w || Env.bind_refused env host p)%bool
                  then (Raises OSError, emit (EvBind s p) w)
                  else
                    (Returns tt,
                     emit (EvBind s p)
                          (mkWorld (socks w) (next_id w)
                                   (if (p =? 0)%Z then ports_in_use w
                                    else p :: ports_in_use w)
                                   (trace w)))
              end
        end
  end.

(** [s.listen(n)] *)
Definition sock_listen (s : sockid) (n : nat) (w : world)
  : outcome unit * world :=
  match live s w with
  | None => (Raises OSError, w)
  | Some k =>
      let k' := mkSock (sk_closed k) (Some n) (sk_pending k)
                       (sk_rx k) (sk_tx k) (sk_wire k) in
      (Returns tt, emit (EvListen s n) (set_sock s k' w))
  end.

(** [select([l], [], [], 0.1)]: whether [l] is ready; a poll that times
    out brings the next connection one poll closer. *)
Definition sock_select (l : sockid) (w : world) : outcome bool * world :=
  match live l w with
  | None => (Raises OSError, w)
  | Some k =>
      match sk_pending k with
      | (S n, c) :: rest =>
          let k' := mkSock (sk_closed k) (sk_backlog k) ((n, c) :: rest)
                           (sk_rx k) (sk_tx k) (sk_wire k) in
          (Returns false, emit (EvSelect l false) (set_sock l k' w))
      | (O, _) :: _ => (Returns true, emit (EvSelect l true) w)
      | [] => (Returns false, emit (EvSelect l false) w)
      end
  end.

(** [l.accept()] on a ready listening socket. *)
Definition sock_accept (l : sockid) (w : world) : outcome sockid * world :=
  match live l w with
  | None => (Raises OSError, w)
  | Some k =>
      match sk_pending k with
      | (_, c) :: rest =>
          let k' := mkSock (sk_closed k) (sk_backlog k) rest
                           (sk_rx k) (sk_tx k) (sk_wire k) in
          (Returns c, emit (EvAccept l c) (set_sock l k' w))
      | [] => (Hangs, w)
      end
  end.

End Net.

(** ** Methods: state passing with exceptions *)

Module Py.

Import Net.

(** A method of an object of type [O]: it reads and updates the object's
    attributes and the sockets, and returns, raises or hangs.  The state
    reached so far is kept when an exception is raised. *)
Definition M (O A : Type) : Type := O * world -> outcome A * (O * world).

Definition ret {O A} (a : A) : M O A := fun st => (Returns a, st).

Definition raise {O A} (e : exn) : M O A := fun st => (Raises e, st).

Definition bind {O A B} (c : M O A) (k : A -> M O B) : M O B :=
  fun st =>
    match c st with
    | (Returns a, st') => k a st'
    | (Raises e, st') => (Raises e, st')
    | (Hangs, st') => (Hangs, st')
    end.

(** [try: c  except ...: h e]; the handler re-raises what it does not
    catch. *)
Definition try_except {O A} (c : M O A) (h : exn -> M O A) : M O A :=
  fun st =>
    match c st with
    | (Raises e, st') => h e st'
    | r => r
    end.

(** Reading and writing the attributes of [self]. *)
Definition self {O} : M O O := fun st => (Returns (fst st), st).

Definition update {O} (f : O -> O) : M O unit :=
  fun st => (Returns tt, (f (fst st), snd st)).

(** A call into the socket layer. *)
Definition sys {O A} (f : world -> outcome A * world) : M O A :=
  fun st => let (r, w) := f (snd st) in (r, (fst st, w)).

Definition sys_ {O} (f : world -> world) : M O unit :=
  fun st => (Returns tt, (fst st, f (snd st))).

Definition sys_new {O A} (f : world -> A * world) : M O A :=
  fun st => let (a, w) := f (snd st) in (Returns a, (fst st, w)).

Arguments ret {O A} a st /.
Arguments raise {O A} e st /.
Arguments bind {O A B} c k st /.
Arguments try_except {O A} c h st /.
Arguments self {O} st /.
Arguments update {O} f st /.
Arguments sys {O A} f st /.
Arguments sys_ {O} f st /.
Arguments sys_new {O A} f st /.

Declare Scope py_scope.
Delimit Scope py_scope with py.

Notation "x <- c ;;; k" := (bind c (fun x => k))
  (at level 100, c at next level, right associativity) : py_scope.
Notation "c ;;; k" := (bind c (fun _ => k))
  (at level 100, right associativity) : py_scope.

End Py.

(** ** Strings on the wire *)

Module Str.

(** [s.encode('utf-8')] *)
Definition encode (s : string) : list Z :=
  map (fun a => Z.of_N (N_of_ascii a)) (list_ascii_of_string s).

Definition between (lo hi z : Z) : bool := ((lo <=? z) && (z <=? hi))%Z.

(** A continuation byte, [10xxxxxx]. *)
Definition continuation (z : Z) : bool := between 128 191 z.

(** The bytes are well-formed UTF-8, as the strict decoder wants them:
    shortest forms only, no surrogates, nothing above U+10FFFF.  The
    second byte of a sequence of three or four has a narrower range after
    the lead bytes E0, ED, F0 and F4. *)
Fixpoint utf8_valid (b : list Z) : bool :=
  match b with
  | [] => true
  | b0 :: r0 =>
      if between 0 127 b0 then utf8_valid r0
      else if between 194 223 b0 then
        match r0 with
        | b1 :: r1 => continuation b1 && utf8_valid r1
        | _ => false
        end
      else if between 224 239 b0 then
        match r0 with
        | b1 :: b2 :: r2 =>
            between (if (b0 =? 224)%Z then 160 else 128)
                    (if (b0 =? 237)%Z then 159 else 191) b1
            && continuation b2 && utf8_valid r2
        | _ => false
        end
      else if between 240 244 b0 then
        match r0 with
        | b1 :: b2 :: b3 :: r3 =>
            between (if (b0 =? 240)%Z then 144 else 128)
                    (if (b0 =? 244)%Z then 143 else 191) b1
            && continuation b2 && continuation b3 && utf8_valid r3
        | _ => false
        end
      else false
  end.

(** [b.decode('utf-8')]: [None] stands for [UnicodeDecodeError]. *)
Definition decode (b : list Z) : option string :=
  if utf8_valid b
  then Some (string_of_list_ascii (map (fun z => ascii_of_N (Z.to_N z)) b))
  else None.

(** White space of a [str] below U+0080: space, tab to carriage return,
    and the four separators 1C to 1F. *)
Definition is_space (a : ascii) : bool :=
  let n := N_of_ascii a in
  (N.eqb n 32 || (N.leb 9 n && N.leb n 13)
   || (N.leb 28 n && N.leb n 31))%bool.

Definition digit_of (a : ascii) : option Z :=
  let n := N_of_ascii a in
  if (N.leb 48 n && N.leb n 57)%bool then Some (Z.of_N (n - 48)) else None.

Fixpoint lstrip (l : list ascii) : list ascii :=
  match l with
  | a :: l' => if is_space a then lstrip l' else l
  | [] => []
  end.

Definition strip (l : list ascii) : list ascii :=
  rev (lstrip (rev (lstrip l))).

(** Decimal digits, single underscores allowed between two digits. *)
Fixpoint digits (acc : Z) (after_digit : bool) (l : list ascii)
  : option Z :=
  match l with
  | [] => if after_digit then Some acc else None
  | a :: l' =>
      match digit_of a with
      | Some d => digits (10 * acc + d) true l'
      | None =>
          if (Ascii.eqb a "_" && after_digit)%bool
          then digits acc false l'
          else None
      end
  end.

(** [int(s)] on a [str] of ASCII characters: surrounding white space, an
    optional sign, decimal digits.  [None] stands for [ValueError]. *)
Definition int_of_string (s : string) : option Z :=
  match strip (list_ascii_of_string s) with
  | [] => None
  | a :: l =>
      if Ascii.eqb a "-" then option_map Z.opp (digits 0 false l)
      else if Ascii.eqb a "+" then digits 0 false l
      else digits 0 false (a :: l)
  end.

(** Every character is below U+0080. *)
Definition is_ascii (s : string) : bool :=
  forallb (fun a => N.ltb (N_of_ascii a) 128) (list_ascii_of_string s).

(** The interpreter's limit on the digits of a conversion, where it has
    one; a [str] no longer than this is never refused for its length. *)
Definition INT_MAX_STR_DIGITS : nat := 4300.

(** [int(s)] on any [str]: computed here for plain ASCII of bounded
    length; digits and white space of other scripts, and the refusal of
    very long inputs, are the interpreter's. *)
Definition int (env : Env.t) (s : string) : option Z :=
  if (is_ascii s && Nat.leb (String.length s) INT_MAX_STR_DIGITS)%bool
  then int_of_string s
  else Env.int_beyond env s.

End Str.

(** ** modules/socket/node.py *)

Module Node.

Import Net Py.
Local Open Scope py_scope.

(** The attributes that [Node.__init__] creates. *)
Record t : Type := mk {
  socket : option sockid;
  logs : option (list string)
}.

Definition init : t := mk None None.

(** The classes that inherit from [Node]. *)
Class IsNode (O : Type) : Type := {
  node : O -> t;
  with_node : t -> O -> O
}.

Section Methods.
Context {O : Type} `{IsNode O}.

Definition get_logs : M O (option (list string)) :=
  o <- self ;;; ret (logs (node o)).

Definition get_socket : M O (option sockid) :=
  o <- self ;;; ret (socket (node o)).

Definition is_open : M O bool :=
  o <- self ;;;
  ret (match socket (node o) with Some _ => true | None => false end).

Definition check_connection : M O unit :=
  b <- is_open ;;;
  if negb b then raise SocketError else ret tt.

Definition set_logs (l : option (list string)) : M O unit :=
  update (fun o => with_node (mk (socket (node o)) l) o).

Definition set_socket (s : option sockid) : M O unit :=
  update (fun o => with_node (mk s (logs (node o))) o).

(** [log(message)]: the screen output is not modelled. *)
Definition log (message : option string) : M O unit :=
  check_connection ;;;
  match message with
  | Some m =>
      l <- get_logs ;;;
      match l with
      | Some l => set_logs (Some (l ++ [m]))
      | None => raise AttributeError
      end
  | None => ret tt
  end.

(** The socket of an open node; a method called on [None] raises
    [AttributeError]. *)
Definition the_socket : M O sockid :=
  s <- get_socket ;;;
  match s with
  | Some s => ret s
  | None => raise AttributeError
  end.

End Methods.

End Node.

(** ** modules/socket/client.py *)

Module Client.

Import Net Py Node.
Local Open Scope py_scope.

Record t : Type := mk {
  base : Node.t;
  name : option string;
  modulation : option string;
  color : option string
}.

#[export] Instance client_node : IsNode t := {|
  node := base;
  with_node n c := mk n (name c) (modulation c) (color c)
|}.

Definition disconnect : M t unit :=
  b <- is_open ;;;
  (if b then s <- the_socket ;;; sys_ (sock_close s) else ret tt) ;;;
  set_logs None ;;;
  update (fun c => mk (base c) (name c) None (color c)) ;;;
  set_socket None.

Definition recv : M t (list Z) :=
  check_connection ;;;
  s <- the_socket ;;;
  sys (sock_recv s PACKAGE_SIZE).

Definition recv_str : M t string :=
  b <- recv ;;;
  match Str.decode b with
  | Some str => ret str
  | None => raise UnicodeDecodeError
  end.

Definition send (package : list Z) (ensure : bool) : M t (option nat) :=
  check_connection ;;;
  if ensure
  then s <- the_socket ;;; n <- sys (sock_send s package) ;;; ret (Some n)
  else s <- the_socket ;;; sys (sock_sendall s package) ;;; ret None.

Definition send_str (string : string) (ensure : bool)
  : M t (option nat) :=
  send (Str.encode string) ensure.

End Client.

(** ** modules/socket/server.py *)

Module Server.

Import Net Py Node.
Local Open Scope py_scope.

(** The value of [port]: an [int], or the [str] typed by the user. *)
Inductive pyport : Type :=
  | PortInt (z : Z)
  | PortStr (s : string).

(** [not port] *)
Definition falsy (p : pyport) : bool :=
  match p with
  | PortInt z => (z =? 0)%Z
  | PortStr s => String.eqb s ""
  end.

(** [int(port)] *)
Definition int_of {O} (env : Env.t) (p : pyport) : M O Z :=
  match p with
  | PortInt z => ret z
  | PortStr s =>
      match Str.int env s with
      | Some z => ret z
      | None => raise ValueError
      end
  end.

Record t : Type := mk {
  base : Node.t;
  color : string;
  (** the number of colors taken from [cycle(COLORS)] so far *)
  client_colors : nat;
  (** the registry: [None] before [connect] and after [disconnect] *)
  clients : option (gmap nat (gmap string string));
  port : option Z
}.

#[export] Instance server_node : IsNode t := {|
  node := base;
  with_node n s := mk n (color s) (client_colors s) (clients s) (port s)
|}.

Definition init (color : string) : t := mk Node.init color 0 None None.

Definition set_clients (c : option (gmap nat (gmap string string)))
  : M t unit :=
  update (fun s => mk (base s) (color s) (client_colors s) c (port s)).

Definition set_port (p : Z) : M t unit :=
  update (fun s =>
            mk (base s) (color s) (client_colors s) (clients s) (Some p)).

(** [self.__clients], which must be a dict. *)
Definition the_clients : M t (gmap nat (gmap string string)) :=
  s <- self ;;;
  match clients s with
  | Some d => ret d
  | None => raise TypeError
  end.

(** The element that [cycle(COLORS)] yields at a position. *)
Definition color_of (position : nat) : string :=
  nth (position mod length COLORS) COLORS "".

(** [next(self.__client_colors)] *)
Definition next_color : M t string :=
  s <- self ;;;
  update (fun s =>
            mk (base s) (color s) (S (client_colors s)) (clients s)
               (port s)) ;;;
  ret (color_of (client_colors s)).

Definition check_client (client : sockid) : M t unit :=
  check_connection ;;;
  d <- the_clients ;;;
  match d !! client with
  | None => raise InvalidClientError
  | Some _ => ret tt
  end.

Definition bye (client : sockid) : M t unit :=
  check_client client ;;;
  sys_ (sock_close client) ;;;
  d <- the_clients ;;;
  match d !! client with
  | None => raise KeyError
  | Some _ => set_clients (Some (delete client d))
  end.

Definition connect (env : Env.t) (host : string) (port : pyport)
  : M t unit :=
  let port := if falsy port then PortInt DEFAULT_PORT else port in
  bound <-
    try_except
      (p <- int_of env port ;;;
       sock <- sys_new sock_new ;;;
       sys (sock_bind env sock host p) ;;;
       ret (p, sock))
      (fun e =>
         if is_OSError e then raise PortAlreadyUsedError
         else match e with
              | OverflowError => raise PortOutOfRangeError
              | _ =>
                  if is_ValueError e then raise InvalidPortError
                  else raise e
              end) ;;;
  set_clients (Some ∅) ;;;
  set_logs (Some []) ;;;
  set_port (fst bound) ;;;
  set_socket (Some (snd bound)) ;;;
  s <- the_socket ;;;
  sys (sock_listen s BACKLOG_SIZE).

(** [for client in self.__clients: client.close()] *)
Definition close_all (d : gmap nat (gmap string string)) (w : world)
  : world :=
  foldr sock_close w (map fst (map_to_list d)).

Definition disconnect : M t unit :=
  b <- is_open ;;;
  (if b
   then d <- the_clients ;;;
        sys_ (close_all d) ;;;
        s <- the_socket ;;;
        sys_ (sock_close s)
   else ret tt) ;;;
  set_clients None ;;;
  set_logs None ;;;
  set_socket None.

(** [self.__clients[client][key]] *)
Definition get_field (key : string) (client : sockid) : M t string :=
  check_client client ;;;
  d <- the_clients ;;;
  match d !! client with
  | None => raise KeyError
  | Some r =>
      match r !! key with
      | Some v => ret v
      | None => raise KeyError
      end
  end.

Definition get_color : sockid -> M t string := get_field "color".
Definition get_modulation : sockid -> M t string := get_field "modulation".
Definition get_name : sockid -> M t string := get_field "name".

(** [self.__clients[client][key] = v] *)
Definition set_field (client : sockid) (key v : string) : M t unit :=
  d <- the_clients ;;;
  match d !! client with
  | None => raise KeyError
  | Some r => set_clients (Some (<[client := <[key := v]> r]> d))
  end.

Definition recv (client : sockid) : M t (list Z) :=
  sys (sock_recv client PACKAGE_SIZE).

Definition recv_str (client : sockid) : M t string :=
  b <- recv client ;;;
  match Str.decode b with
  | Some str => ret str
  | None => raise UnicodeDecodeError
  end.

Definition send (client : sockid) (package : list Z) (ensure : bool)
  : M t (option nat) :=
  check_client client ;;;
  try_except
    (if ensure
     then n <- sys (sock_send client package) ;;; ret (Some n)
     else sys (sock_sendall client package) ;;; ret None)
    (fun e =>
       if is_OSError e then raise ClientDisconnectedError else raise e).

Definition send_str (client : sockid) (string : string) (ensure : bool)
  : M t (option nat) :=
  check_client client ;;;
  send client (Str.encode string) ensure.

(** The polling loop of [hello]: [select] with a 0.1 s timeout until the
    listening socket is ready, then [accept].  [polls] is the number of
    timeouts the next connection is still away; no other thread closes
    the server meanwhile, so [is_open()] stays true. *)
Fixpoint wait_accept (l : sockid) (polls : nat) : M t sockid :=
  response <- sys (sock_select l) ;;;
  if (response : bool) then sys (sock_accept l)
  else match polls with
       | O => fun st => (Hangs, st)
       | S polls' => wait_accept l polls'
       end.

Definition hello : M t sockid :=
  check_connection ;;;
  l <- the_socket ;;;
  client <-
    (fun st =>
       match live l (snd st) with
       | Some k =>
           match sk_pending k with
           | (polls, _) :: _ => wait_accept l polls st
           | [] => (Hangs, st)
           end
       | None => wait_accept l 0 st
       end) ;;;
  color <- next_color ;;;
  d <- the_clients ;;;
  set_clients (Some (<[client := {["color" := color]}]> d)) ;;;
  name <- recv_str client ;;;
  set_field client "name" name ;;;
  send_str client color true ;;;
  modulation <- recv_str client ;;;
  set_field client "modulation" modulation ;;;
  ret client.

(** The loop of [broadcast]: [send] to each client in turn; the first
    exception ends it. *)
Fixpoint send_each (targets : list nat) (package : list Z) (ensure : bool)
  : M t unit :=
  match targets with
  | [] => ret tt
  | client :: rest =>
      send client package ensure ;;;
      send_each rest package ensure
  end.

(** [broadcast(package, black_list, ensure)]: Python iterates the set
    difference in an order of its own; here it is the order of
    [elements]. *)
Definition broadcast (package : list Z) (black_list : list nat)
    (ensure : bool) : M t unit :=
  check_connection ;;;
  d <- the_clients ;;;
  send_each (elements (dom d ∖ list_to_set black_list : gset nat))
            package ensure.

Definition broadcast_str (string : string) (black_list : list nat)
    (ensure : bool) : M t unit :=
  broadcast (Str.encode string) black_list ensure.

End Server.

(** ** The audio loops of modules/core/threads.py and
       modules/core/options.py *)

Module Loops.

Import Np Modulator.

(** [handle_client], one turn of the [while True] loop: what is passed to
    [server.send] for the block read from the microphone. *)
Definition packet (modulation : string) (block : ndarray)
  : outcome (list Z) :=
  match init modulation (PyArray block) with
  | Returns recorded =>
      if String.eqb modulation NO_MOD then Returns (encode recorded)
      else
        match lowpass recorded with
        | Returns filtered =>
            let modulated := modulate filtered in
            Returns (encode modulated)
        | Raises e => Raises e
        | Hangs => Hangs
        end
  | Raises e => Raises e
  | Hangs => Hangs
  end.

(** [connect], one turn of the [while len(package) != 0] loop: what is
    written to the speaker for a received package. *)
Definition frames (modulation : string) (package : list Z)
  : outcome (list (list Z)) :=
  match init modulation (PyBytes package) with
  | Returns received =>
      if String.eqb modulation NO_MOD then output received
      else
        let demodulated := demodulate received in
        match lowpass demodulated with
        | Returns filtered => output filtered
        | Raises e => Raises e
        | Hangs => Hangs
        end
  | Raises e => Raises e
  | Hangs => Hangs
  end.

End Loops.

(** ** Concrete sessions used in the examples *)

Module Scenario.

Import Net.

(** An established connection: what the peer sends, and how the kernel
    answers the writes. *)
Definition conn (rx : list recv_ev) (tx : list write_ev) : sock :=
  mkSock false None [] rx tx [].

Definition listener (pending : list (nat * nat)) : sock :=
  mkSock false (Some BACKLOG_SIZE) pending [] [] [].

(** Descriptor 1 listens on the default port; descriptor 7 is a
    connection. *)
Definition world_of (pending : list (nat * nat)) (rx : list recv_ev)
    (tx : list write_ev) : world :=
  mkWorld {[ 1 := listener pending; 7 := conn rx tx ]} 8 [DEFAULT_PORT] [].

(** A machine on which [nohost.invalid] has no address and every other
    host names one, the system refuses no bind for a reason of its own,
    and [int] reads plain ASCII only. *)
Definition env : Env.t :=
  Env.mk
    (fun host =>
       if String.eqb host "nohost.invalid" then Env.NoAddress
       else Env.Resolves)
    (fun _ _ => false)
    (fun _ => None).

(** A server after [connect], with nobody registered. *)
Definition server : Server.t :=
  Server.mk (Node.mk (Some 1) (Some [])) GREEN 0 (Some ∅)
            (Some DEFAULT_PORT).

(** The same server with the connection 7 registered. *)
Definition server_with_client : Server.t :=
  Server.mk (Node.mk (Some 1) (Some [])) GREEN 1
            (Some {[ 7 := {[ "color" := RED; "name" := "bob";
                             "modulation" := AM ]} ]})
            (Some DEFAULT_PORT).

(** A client connected through descriptor 7. *)
Definition client : Client.t :=
  Client.mk (Node.mk (Some 7) (Some [])) (Some "bob") (Some AM)
            (Some RED).

(** The bytes written on a connection so far. *)
Definition wire (s : nat) (w : world) : list Z :=
  match socks w !! s with
  | Some k => sk_wire k
  | None => []
  end.

(** What is still unread on a connection. *)
Definition unread (s : nat) (w : world) : list recv_ev :=
  match socks w !! s with
  | Some k => sk_rx k
  | None => []
  end.

End Scenario.

(** ** Vocabulary of the properties *)

Module Props.

Import Net Py Node Server.

(** [m] keeps [P]: if [P] holds of the object before the call, it holds
    after it, however the call ends. *)
Definition keeps {O A : Type} (P : O -> Prop) (m : M O A) : Prop :=
  forall s w, P s -> P (fst (snd (m (s, w)))).

(** The server is open on [l] and its registry holds a record for [c]
    with this color. *)
Definition registered (l c : nat) (col : string) (s : Server.t) : Prop :=
  socket (base s) = Some l
  /\ exists d r,
       clients s = Some d /\ d !! c = Some r /\ r !! "color" = Some col.

(** The server is open on [l] and its registry holds a record for [c],
    whatever is in it. *)
Definition has_record (l c : nat) (s : Server.t) : Prop :=
  socket (base s) = Some l
  /\ exists d r, clients s = Some d /\ d !! c = Some r.

(** The part of [hello] that follows the creation of the record. *)
Definition handshake (client : nat) (color : string) : M Server.t nat :=
  bind (recv_str client) (fun name =>
  bind (set_field client "name" name) (fun _ =>
  bind (send_str client color true) (fun _ =>
  bind (recv_str client) (fun modulation =>
  bind (set_field client "modulation" modulation) (fun _ =>
  ret client))))).

(** The port that [connect] tries to bind: the default one for an empty
    value, else the value read as an integer; [None] when it does not
    read as one. *)
Definition requested (env : Env.t) (port : pyport) : option Z :=
  match (if falsy port then PortInt DEFAULT_PORT else port) with
  | PortInt z => Some z
  | PortStr s => Str.int env s
  end.

(** The world after [socket()]. *)
Definition with_new_sock (w : world) : world :=
  mkWorld (<[next_id w := new_sock]> (socks w)) (S (next_id w))
          (ports_in_use w) (trace w).

End Props.

Import Props.

(** * Properties of the signal processor *)

Section NumpyFacts.

Import Np.

Lemma length_zip_with (f : R -> R -> R) (a b : list R) :
  length (zip_with f a b) = Nat.min (length a) (length b).
Proof. unfold zip_with. now rewrite length_map, length_combine. Qed.

Lemma length_values (a : ndarray) : length (values a) = size a.
Proof. destruct a; simpl; [apply length_map | reflexivity]. Qed.

Lemma size_multiply (a : ndarray) (b : list R) :
  length b = size a -> size (multiply a b) = size a.
Proof.
  intros Hb. simpl. rewrite length_zip_with, length_values, Hb.
  apply Nat.min_id.
Qed.

Lemma size_add (a : ndarray) (b : list R) :
  length b = size a -> size (add a b) = size a.
Proof.
  intros Hb. simpl. rewrite length_zip_with, length_values, Hb.
  apply Nat.min_id.
Qed.

Lemma size_divide (a : ndarray) (k : R) : size (divide a k) = size a.
Proof. simpl. now rewrite length_map, length_values. Qed.

Lemma size_abs (a : ndarray) : size (abs a) = size a.
Proof. destruct a; simpl; apply length_map. Qed.

Lemma length_astype_int16 (a : ndarray) :
  length (astype_int16 a) = size a.
Proof. destruct a; simpl; [reflexivity | apply length_map]. Qed.

Lemma length_tobytes (xs : list Z) : length (tobytes xs) = 2 * length xs.
Proof.
  unfold tobytes. induction xs as [|x xs IH]; [reflexivity|].
  cbn [flat_map int16_bytes app length]. rewrite IH. lia.
Qed.

Lemma length_blackmanharris (n : nat) : length (blackmanharris n) = n.
Proof.
  unfold blackmanharris. destruct (n <=? 1)%nat.
  - apply repeat_length.
  - now rewrite length_map, length_seq.
Qed.

Lemma length_firwin (n : nat) (cutoff fs : R) :
  length (firwin n cutoff fs) = n.
Proof.
  unfold firwin.
  rewrite length_map, length_zip_with, !length_map, length_seq,
    length_blackmanharris.
  apply Nat.min_id.
Qed.

Lemma length_convolve_full (a v : list R) :
  length (convolve_full a v) = length a + length v - 1.
Proof. unfold convolve_full. now rewrite length_map, length_seq. Qed.

(** On two arrays of one length ≥ 1, 'same' convolution succeeds and
    keeps that length. *)
Lemma convolve_same_length (a v : list R) :
  1 <= length a -> length v = length a ->
  exists out, convolve_same a v = Returns out /\ length out = length a.
Proof.
  intros Ha Hv.
  destruct a as [|x a]; [simpl in Ha; lia|].
  destruct v as [|y v]; [simpl in Hv; lia|].
  eexists; split; [reflexivity|].
  rewrite length_firstn, length_skipn, length_convolve_full, Hv.
  rewrite Nat.min_id, Nat.max_id.
  set (n := length (x :: a)) in *.
  assert ((n - 1) / 2 <= n - 1) by (apply Nat.Div0.div_le_upper_bound; lia).
  lia.
Qed.

(** Multiplying or adding a constant array is a map. *)
Lemma zip_with_repeat (f : R -> R -> R) (c : R) (l : list R) :
  zip_with f l (repeat c (length l)) = map (fun x => f x c) l.
Proof.
  unfold zip_with. induction l as [|x l IH]; simpl; [reflexivity|].
  now rewrite IH.
Qed.

Local Open Scope Z_scope.

Lemma wrap16_mod (z : Z) : is_int16 z -> wrap16 (z mod 65536) = z.
Proof.
  intros Hz. unfold wrap16, is_int16 in *.
  rewrite Z.add_mod_idemp_l by lia.
  rewrite Z.mod_small by lia. lia.
Qed.

Lemma bytes_join (z : Z) :
  Z.lor (Z.land z 255) (Z.shiftl (Z.land (Z.shiftr z 8) 255) 8)
  = z mod 65536.
Proof.
  change 255 with (Z.ones 8).
  change 65536 with (2 ^ 16). rewrite <- Z.land_ones by lia.
  apply Z.bits_inj'. intros n Hn.
  rewrite Z.lor_spec, !Z.land_spec.
  destruct (Z.ltb_spec n 8) as [H8|H8].
  - rewrite Z.shiftl_spec_low by lia.
    rewrite !Z.ones_spec_low by lia.
    now rewrite orb_false_r.
  - rewrite Z.shiftl_spec_high by lia.
    rewrite Z.land_spec, Z.shiftr_spec by lia.
    replace (n - 8 + 8) with n by lia.
    rewrite (Z.ones_spec_high 8 n) by lia.
    rewrite andb_false_r. simpl.
    destruct (Z.ltb_spec n 16) as [H16|H16].
    + now rewrite !Z.ones_spec_low by lia.
    + now rewrite !Z.ones_spec_high by lia.
Qed.

(** Reading back the two bytes of an int16 gives the sample. *)
Lemma int16_bytes_roundtrip (z : Z) :
  is_int16 z ->
  int16_of_bytes (Z.land z 255) (Z.land (Z.shiftr z 8) 255) = z.
Proof.
  intros Hz. unfold int16_of_bytes. rewrite bytes_join.
  now apply wrap16_mod.
Qed.

Lemma frombuffer_tobytes (xs : list Z) :
  Forall is_int16 xs -> frombuffer (tobytes xs) = Some xs.
Proof.
  induction 1 as [|x xs Hx _ IH]; [reflexivity|].
  change (tobytes (x :: xs))
    with (Z.land x 255 :: Z.land (Z.shiftr x 8) 255 :: tobytes xs).
  cbn [frombuffer]. rewrite IH.
  now rewrite int16_bytes_roundtrip.
Qed.

End NumpyFacts.

Section ModulatorFacts.

Import Np Modulator.

Lemma length_am_carrier (m : Modulator.t) :
  length (am_carrier m) = size (signal m).
Proof. unfold am_carrier. now rewrite length_map, length_seq. Qed.

Lemma am_carrier_nth (m : Modulator.t) (t : nat) :
  (t < size (signal m))%nat -> nth t (am_carrier m) 0%R = carrier_at t.
Proof.
  intros Ht. unfold am_carrier, carrier_at, AM_CARRIER_FREQ.
  rewrite (nth_indep _ 0%R (cos (2 * PI * INR 0 * 3000))%R)
    by now rewrite length_map, length_seq.
  rewrite (map_nth (fun t => cos (2 * PI * INR t * 3000)%R)).
  now rewrite seq_nth.
Qed.

(** A whole number of turns: the cosine is 1. *)
Lemma carrier_at_one (t : nat) : carrier_at t = 1%R.
Proof.
  unfold carrier_at.
  replace (2 * PI * INR t * 3000)%R
    with (0 + 2 * INR (3000 * t) * PI)%R.
  - rewrite cos_period. apply cos_0.
  - rewrite mult_INR. simpl (INR 3000). lra.
Qed.

Lemma am_carrier_ones (m : Modulator.t) :
  am_carrier m = repeat 1%R (size (signal m)).
Proof.
  unfold am_carrier.
  generalize (size (signal m)) as n. generalize 0%nat as k.
  intros k n. revert k.
  induction n as [|n IH]; intros k; simpl; [reflexivity|].
  rewrite IH. f_equal. apply (carrier_at_one k).
Qed.

Lemma nth_zip_with (f : R -> R -> R) (a b : list R) (t : nat) :
  (t < length a)%nat -> (t < length b)%nat ->
  nth t (zip_with f a b) 0%R = f (nth t a 0%R) (nth t b 0%R).
Proof.
  revert b t. induction a as [|x a IH]; intros [|y b] [|t] Ha Hb;
    simpl in *; try lia; [reflexivity|].
  apply IH; lia.
Qed.

(** The branches taken for each modulation tag. *)
Lemma modulate_AM (sig : ndarray) :
  modulate (mk AM sig)
  = let c := am_carrier (mk AM sig) in
    mk AM (divide (add (multiply sig c) c) 2).
Proof. reflexivity. Qed.

Lemma modulate_AM_SC (sig : ndarray) :
  modulate (mk AM_SC sig)
  = mk AM_SC (multiply sig (am_carrier (mk AM_SC sig))).
Proof. reflexivity. Qed.

Lemma demodulate_AM (sig : ndarray) :
  demodulate (mk AM sig) = mk AM (abs sig).
Proof. reflexivity. Qed.

Lemma demodulate_AM_SC (sig : ndarray) :
  demodulate (mk AM_SC sig)
  = mk AM_SC (multiply sig (am_carrier (mk AM_SC sig))).
Proof. reflexivity. Qed.

Lemma nth_map_R (f : R -> R) (l : list R) (t : nat) :
  (t < length l)%nat -> nth t (map f l) 0%R = f (nth t l 0%R).
Proof.
  intros Ht. rewrite (nth_indep _ 0%R (f 0%R)) by now rewrite length_map.
  apply map_nth.
Qed.

(** AM modulation, sample by sample: (s c + c) / 2. *)
Lemma modulate_am_nth (sig : ndarray) (t : nat) :
  (t < size sig)%nat ->
  nth t (values (signal (modulate (mk AM sig)))) 0%R
  = ((nth t (values sig) 0 * carrier_at t + carrier_at t) / 2)%R.
Proof.
  intros Ht. rewrite modulate_AM. cbv zeta. cbn [signal].
  pose proof (length_am_carrier (mk AM sig)) as Hc. simpl in Hc.
  pose proof (length_values sig) as Hv.
  unfold divide, add, multiply. cbn [values].
  rewrite nth_map_R
    by (rewrite !length_zip_with, Hv, Hc; lia).
  rewrite nth_zip_with by (rewrite ?length_zip_with, ?Hv, ?Hc; lia).
  rewrite nth_zip_with by (rewrite ?Hv, ?Hc; lia).
  now rewrite (am_carrier_nth (mk AM sig)) by exact Ht.
Qed.

(** AM-SC modulation, sample by sample: s c. *)
Lemma modulate_am_sc_nth (sig : ndarray) (t : nat) :
  (t < size sig)%nat ->
  nth t (values (signal (modulate (mk AM_SC sig)))) 0%R
  = (nth t (values sig) 0 * carrier_at t)%R.
Proof.
  intros Ht. rewrite modulate_AM_SC.
  pose proof (length_am_carrier (mk AM_SC sig)) as Hc. simpl in Hc.
  pose proof (length_values sig) as Hv.
  cbn [signal multiply values].
  rewrite nth_zip_with by (rewrite ?Hv, ?Hc; lia).
  now rewrite (am_carrier_nth (mk AM_SC sig)) by exact Ht.
Qed.

(** AM-SC demodulation, sample by sample: s c. *)
Lemma demodulate_am_sc_nth (sig : ndarray) (t : nat) :
  (t < size sig)%nat ->
  nth t (values (signal (demodulate (mk AM_SC sig)))) 0%R
  = (nth t (values sig) 0 * carrier_at t)%R.
Proof.
  intros Ht. rewrite demodulate_AM_SC.
  pose proof (length_am_carrier (mk AM_SC sig)) as Hc. simpl in Hc.
  pose proof (length_values sig) as Hv.
  cbn [signal multiply values].
  rewrite nth_zip_with by (rewrite ?Hv, ?Hc; lia).
  now rewrite (am_carrier_nth (mk AM_SC sig)) by exact Ht.
Qed.

(** No modulation: both directions leave the modulator as it is. *)
Lemma modulate_none (sig : ndarray) :
  modulate (mk NO_MOD sig) = mk NO_MOD sig
  /\ demodulate (mk NO_MOD sig) = mk NO_MOD sig.
Proof. split; reflexivity. Qed.

(** AM demodulation of a float64 signal is the absolute value. *)
Lemma demodulate_am_float (xs : list R) :
  values (signal (demodulate (mk AM (Float64Array xs)))) = map Rabs xs.
Proof. reflexivity. Qed.

(** AM demodulation of an int16 signal is the absolute value as long as
    no sample is the most negative one. *)
Lemma demodulate_am_int16 (xs : list Z) :
  Forall (fun z => (-32768 < z < 32768)%Z) xs ->
  values (signal (demodulate (mk AM (Int16Array xs))))
  = map Rabs (values (Int16Array xs)).
Proof.
  intros H. rewrite demodulate_AM.
  cbn [signal abs values]. rewrite !map_map.
  apply map_ext_in. intros z Hz.
  rewrite List.Forall_forall in H. specialize (H z Hz).
  unfold wrap16. rewrite Z.mod_small by lia.
  replace (Z.abs z + 32768 - 32768)%Z with (Z.abs z) by lia.
  apply abs_IZR.
Qed.

End ModulatorFacts.

Section ModulatorClaims.

Import Np Modulator.

(** Claim C2, at the sample where the code departs from it.  The claim
    gives AM demodulation as the absolute value of the signal.  A packet
    holding the most negative 16-bit sample is decoded to an int16 array;
    [np.abs] keeps that dtype, in which 32768 does not exist, so the
    sample comes out as -32768 again and not as its absolute value.
    (Everywhere else the formulas of the claim hold: [modulate_am_nth],
    [modulate_am_sc_nth], [modulate_none], [demodulate_am_sc_nth],
    [demodulate_am_float], [demodulate_am_int16].) *)
Theorem demodulate_am_most_negative_sample :
  init AM (PyBytes [0; 128]%Z) = Returns (mk AM (Int16Array [-32768]%Z))
  /\ signal (demodulate (mk AM (Int16Array [-32768]%Z)))
     = Int16Array [-32768]%Z
  /\ values (signal (demodulate (mk AM (Int16Array [-32768]%Z))))
     <> map Rabs (values (Int16Array [-32768]%Z)).
Proof.
  split; [reflexivity|]. split; [reflexivity|].
  rewrite demodulate_AM. cbn [signal abs values map].
  change (wrap16 (Z.abs (-32768))) with (-32768)%Z.
  intros H. injection H as H.
  rewrite Rabs_left in H by lra. lra.
Qed.

(** Claim C3: on a chunk of at least one sample and with a valid
    modulation type, [modulate], [demodulate] and [lowpass] return a
    signal with as many samples as the input, [lowpass] (a filter with
    as many taps as the chunk, convolved in 'same' mode) does return,
    and [encode] produces two bytes, one 16-bit value, per sample. *)
Theorem transforms_preserve_length (m : Modulator.t) :
  In (modulation m) modulations ->
  1 <= size (signal m) ->
  size (signal (modulate m)) = size (signal m)
  /\ size (signal (demodulate m)) = size (signal m)
  /\ (exists m', lowpass m = Returns m'
                 /\ size (signal m') = size (signal m))
  /\ length (encode m) = 2 * size (signal m).
Proof.
  intros Hmod Hlen. destruct m as [tag sig]. cbn [modulation signal] in *.
  repeat split.
  - destruct Hmod as [<-|[<-|[<-|[]]]].
    + rewrite modulate_AM. cbv zeta. cbn [signal].
      pose proof (length_am_carrier (mk AM sig)) as Hc. cbn [signal] in Hc.
      rewrite size_divide, size_add, size_multiply; auto.
      now rewrite size_multiply.
    + rewrite modulate_AM_SC. cbn [signal].
      apply size_multiply. apply (length_am_carrier (mk AM_SC sig)).
    + reflexivity.
  - destruct Hmod as [<-|[<-|[<-|[]]]].
    + rewrite demodulate_AM. cbn [signal]. apply size_abs.
    + rewrite demodulate_AM_SC. cbn [signal].
      apply size_multiply. apply (length_am_carrier (mk AM_SC sig)).
    + reflexivity.
  - unfold lowpass, lowpass_signal. cbn [signal modulation].
    destruct (convolve_same_length (values sig)
                (firwin (size sig) CUTOFF FRAME_RATE))
      as (out & Hout & Hl).
    + now rewrite length_values.
    + now rewrite length_firwin, length_values.
    + rewrite Hout. eexists; split; [reflexivity|].
      cbn [signal size]. now rewrite Hl, length_values.
  - unfold encode. cbn [signal].
    now rewrite length_tobytes, length_astype_int16.
Qed.

Lemma transforms_preserve_length_witness :
  let m := mk AM_SC (Int16Array [3; -4; 5]%Z) in
  size (signal (modulate m)) = 3
  /\ size (signal (demodulate m)) = 3
  /\ (exists m', lowpass m = Returns m' /\ size (signal m') = 3)
  /\ length (encode m) = 6.
Proof.
  apply (transforms_preserve_length (mk AM_SC (Int16Array [3; -4; 5]%Z))).
  - simpl. auto.
  - simpl. lia.
Defined.

(** Claim C8: without modulation, decoding the bytes that [encode]
    produces from a sequence of valid int16 samples gives the sequence
    back: the modulator built from [x] and the one built from its
    encoding are the same, and their signal is [x]. *)
Theorem decode_encode_none (x : list Z) :
  Forall is_int16 x ->
  exists m,
    init NO_MOD (PyArray (Int16Array x)) = Returns m
    /\ init NO_MOD (PyBytes (encode m)) = Returns m
    /\ signal m = Int16Array x.
Proof.
  intros Hx. exists (mk NO_MOD (Int16Array x)).
  split; [reflexivity|]. split; [|reflexivity].
  unfold init, encode. cbn [signal astype_int16 set_signal].
  change (check_modulation NO_MOD) with (Returns tt).
  now rewrite frombuffer_tobytes.
Qed.

Lemma decode_encode_none_witness :
  exists m,
    init NO_MOD (PyArray (Int16Array [-32768; -1; 0; 258; 32767]%Z))
    = Returns m
    /\ init NO_MOD (PyBytes (encode m)) = Returns m
    /\ signal m = Int16Array [-32768; -1; 0; 258; 32767]%Z.
Proof.
  apply (decode_encode_none [-32768; -1; 0; 258; 32767]%Z).
  repeat constructor; unfold is_int16; lia.
Defined.

(** Claim C9: the carrier is cos(2 pi 3000 t) at whole sample indices
    [t], a whole number of turns, so in real arithmetic it is 1 at every
    sample; hence AM-SC modulation and demodulation leave the values of
    the signal as they are, and AM modulation maps each sample [s] to
    (s + 1) / 2. *)
Theorem carrier_is_one (tag : string) (sig : ndarray) :
  am_carrier (mk tag sig) = repeat 1%R (size sig)
  /\ values (signal (modulate (mk AM_SC sig))) = values sig
  /\ values (signal (demodulate (mk AM_SC sig))) = values sig
  /\ values (signal (modulate (mk AM sig)))
     = map (fun s => ((s + 1) / 2)%R) (values sig).
Proof.
  assert (Hmul : forall l : list R,
             map (fun x => (x * 1)%R) l = l).
  { intros l. rewrite <- (map_id l) at 2. apply map_ext. intros; lra. }
  repeat split.
  - apply (am_carrier_ones (mk tag sig)).
  - rewrite modulate_AM_SC, am_carrier_ones. cbn [signal multiply values].
    rewrite <- (length_values sig), zip_with_repeat. apply Hmul.
  - rewrite demodulate_AM_SC, am_carrier_ones.
    cbn [signal multiply values].
    rewrite <- (length_values sig), zip_with_repeat. apply Hmul.
  - rewrite modulate_AM. cbv zeta. rewrite am_carrier_ones.
    cbn [signal multiply add divide values].
    rewrite <- (length_values sig), zip_with_repeat, Hmul.
    rewrite zip_with_repeat, map_map. reflexivity.
Qed.

End ModulatorClaims.

(** * Properties of the socket sessions *)

(** One step of symbolic execution of a method: the attributes of the
    object are computed, the calls into the socket layer are left for
    rewriting. *)
Ltac step :=
  cbn -[Server.color_of Server.wait_accept Net.sock_recv Net.sock_send
        Net.sock_sendall Net.sock_bind Net.sock_listen Net.sock_close
        Net.live lookup insert delete singletonM PACKAGE_SIZE
        Str.encode Str.decode Str.int_of_string Str.int].

Section NetFacts.

Import Net.

Lemma live_Some (s : nat) (w : world) (k : sock) :
  live s w = Some k <-> socks w !! s = Some k /\ sk_closed k = false.
Proof.
  unfold live. destruct (socks w !! s) as [k'|].
  - destruct (sk_closed k') eqn:E; split.
    + discriminate.
    + intros [[= ->] ?]. congruence.
    + intros [= ->]. now split.
    + intros [[= ->] _]. reflexivity.
  - split; [discriminate | intros [? _]; discriminate].
Qed.

Lemma live_emit (s : nat) (ev : event) (w : world) :
  live s (emit ev w) = live s w.
Proof. reflexivity. Qed.

Lemma live_set_sock_eq (s : nat) (k : sock) (w : world) :
  sk_closed k = false -> live s (set_sock s k w) = Some k.
Proof.
  intros Hk. unfold live, set_sock. cbn [socks].
  now rewrite lookup_insert_eq, Hk.
Qed.

Lemma live_set_sock_ne (s s' : nat) (k : sock) (w : world) :
  s <> s' -> live s (set_sock s' k w) = live s w.
Proof.
  intros Hne. unfold live, set_sock. cbn [socks].
  now rewrite lookup_insert_ne by congruence.
Qed.

(** A chunk that fits in the buffer is received whole. *)
Lemma sock_recv_data (s n : nat) (w : world) (k : sock)
    (b : list Z) (rx : list recv_ev) :
  live s w = Some k -> sk_rx k = Data b :: rx -> length b <= n ->
  sock_recv s n w
  = (Returns b,
     emit (EvRecv s (Returns b))
          (set_sock s (mkSock (sk_closed k) (sk_backlog k) (sk_pending k)
                              rx (sk_tx k) (sk_wire k)) w)).
Proof.
  intros Hl Hrx Hn. unfold sock_recv. rewrite Hl, Hrx.
  now rewrite firstn_all2, skipn_all2 by lia.
Qed.

Lemma sock_send_ok (s : nat) (data : list Z) (w : world) (k : sock) :
  live s w = Some k -> accepts_write k = true ->
  exists n k',
    sock_send s data w
    = (Returns n, emit (EvWrite s (Returns n)) (set_sock s k' w))
    /\ sk_rx k' = sk_rx k /\ sk_closed k' = false.
Proof.
  intros Hl Hw. unfold sock_send. rewrite Hl.
  apply live_Some in Hl as [_ Hc].
  unfold accepts_write in Hw.
  destruct (sk_tx k) as [|[n|e] tx]; [| |discriminate];
    eexists _, _; (split; [reflexivity|]); now split.
Qed.

End NetFacts.

Section ServerFacts.

Import Net Py Node Server.

Lemma wait_accept_eq (l polls : nat) :
  wait_accept l polls
  = bind (sys (sock_select l))
         (fun response : bool =>
            if response then sys (sock_accept l)
            else match polls with
                 | O => fun st => (Hangs, st)
                 | S polls' => wait_accept l polls'
                 end).
Proof. destruct polls; reflexivity. Qed.

(** The polling loop ends: after [polls] timeouts the socket is ready
    and the head of the queue is accepted. *)
Lemma wait_accept_ready (s : Server.t) (l polls : nat) :
  forall (w : world) (k : sock) (c : nat) (rest : list (nat * nat)),
    live l w = Some k -> sk_pending k = (polls, c) :: rest ->
    wait_accept l polls (s, w)
    = (Returns c,
       (s, mkWorld
             (<[l := mkSock (sk_closed k) (sk_backlog k) rest
                            (sk_rx k) (sk_tx k) (sk_wire k)]> (socks w))
             (next_id w) (ports_in_use w)
             (trace w ++ repeat (EvSelect l false) polls
                      ++ [EvSelect l true; EvAccept l c]))).
Proof.
  induction polls as [|polls IH]; intros w k c rest Hl Hp;
    rewrite wait_accept_eq; unfold bind, sys; cbn [snd fst];
    unfold sock_select; rewrite Hl, Hp.
  - cbn [fst snd]. unfold sock_accept. rewrite live_emit, Hl, Hp.
    unfold emit, set_sock. cbn [socks next_id ports_in_use trace].
    rewrite <- !app_assoc. reflexivity.
  - pose proof Hl as [_ Hc]%live_Some.
    cbn [fst snd].
    set (k1 := mkSock _ _ ((polls, c) :: rest) _ _ _).
    rewrite (IH _ k1 c rest).
    + unfold emit, set_sock, k1.
      cbn [socks next_id ports_in_use trace sk_closed sk_backlog
           sk_pending sk_rx sk_tx sk_wire].
      rewrite insert_insert_eq, <- !app_assoc. reflexivity.
    + rewrite live_emit. now apply live_set_sock_eq.
    + reflexivity.
Qed.

End ServerFacts.

Section HelloFacts.

Import Net Py Node Server.

Lemma recv_str_data (s : Server.t) (w : world) (c : nat) (kc : sock)
    (b : list Z) (rx : list recv_ev) (str : string) :
  live c w = Some kc -> sk_rx kc = Data b :: rx ->
  length b <= PACKAGE_SIZE ->
  Str.decode b = Some str ->
  recv_str c (s, w)
  = (Returns str,
     (s, emit (EvRecv c (Returns b))
              (set_sock c (mkSock (sk_closed kc) (sk_backlog kc)
                                  (sk_pending kc) rx (sk_tx kc)
                                  (sk_wire kc)) w))).
Proof.
  intros Hc Hrx Hb Hdec. unfold recv_str, recv. step.
  rewrite (sock_recv_data _ _ _ _ _ _ Hc Hrx Hb). step.
  now rewrite Hdec.
Qed.

(** Bytes that are not UTF-8 are received, and then refused by
    [decode]. *)
Lemma recv_str_undecodable (s : Server.t) (w : world) (c : nat)
    (kc : sock) (b : list Z) (rx : list recv_ev) :
  live c w = Some kc -> sk_rx kc = Data b :: rx ->
  length b <= PACKAGE_SIZE ->
  Str.decode b = None ->
  recv_str c (s, w)
  = (Raises UnicodeDecodeError,
     (s, emit (EvRecv c (Returns b))
              (set_sock c (mkSock (sk_closed kc) (sk_backlog kc)
                                  (sk_pending kc) rx (sk_tx kc)
                                  (sk_wire kc)) w))).
Proof.
  intros Hc Hrx Hb Hdec. unfold recv_str, recv. step.
  rewrite (sock_recv_data _ _ _ _ _ _ Hc Hrx Hb). step.
  now rewrite Hdec.
Qed.

Lemma set_field_ok (s : Server.t) (w : world) (c : nat)
    (d : gmap nat (gmap string string)) (r : gmap string string)
    (key v : string) :
  clients s = Some d -> d !! c = Some r ->
  set_field c key v (s, w)
  = (Returns tt,
     (mk (base s) (color s) (client_colors s)
         (Some (<[c := <[key := v]> r]> d)) (port s), w)).
Proof.
  intros Hd Hr. unfold set_field, the_clients. step.
  rewrite Hd. step. now rewrite Hr.
Qed.

Lemma check_client_ok (s : Server.t) (w : world) (l c : nat)
    (d : gmap nat (gmap string string)) (r : gmap string string) :
  socket (base s) = Some l -> clients s = Some d -> d !! c = Some r ->
  check_client c (s, w) = (Returns tt, (s, w)).
Proof.
  intros Hs Hd Hr.
  unfold check_client, check_connection, is_open, the_clients. step.
  rewrite Hs. step. rewrite Hd. step. now rewrite Hr.
Qed.

Lemma send_str_ok (s : Server.t) (w : world) (l c : nat)
    (d : gmap nat (gmap string string)) (r : gmap string string)
    (kc : sock) (str : string) :
  socket (base s) = Some l -> clients s = Some d -> d !! c = Some r ->
  live c w = Some kc -> accepts_write kc = true ->
  exists n kc',
    send_str c str true (s, w)
    = (Returns (Some n),
       (s, emit (EvWrite c (Returns n)) (set_sock c kc' w)))
    /\ sk_rx kc' = sk_rx kc /\ sk_closed kc' = false.
Proof.
  intros Hs Hd Hr Hc Htx.
  destruct (sock_send_ok c (Str.encode str) w kc Hc Htx)
    as (n & kc' & Hsend & Hrx & Hcl).
  exists n, kc'. split; [|now split].
  unfold send_str, send. step.
  rewrite (check_client_ok _ _ _ _ _ _ Hs Hd Hr). step.
  rewrite (check_client_ok _ _ _ _ _ _ Hs Hd Hr). step.
  now rewrite Hsend.
Qed.

(** The handshake of [hello], when the client plays its part: the
    connection is accepted after the polls that time out, the name is
    received, the color is written, the modulation is received, and the
    client is returned.  What the client sent after the modulation is
    still unread. *)
Lemma hello_handshake (s : Server.t) (w : world) (l c polls : nat)
    (d : gmap nat (gmap string string)) (k kc : sock)
    (rest : list (nat * nat)) (nm md : list Z) (rx : list recv_ev)
    (name modn : string) :
  socket (base s) = Some l ->
  clients s = Some d ->
  live l w = Some k ->
  sk_pending k = (polls, c) :: rest ->
  c <> l ->
  live c w = Some kc ->
  sk_rx kc = Data nm :: Data md :: rx ->
  length nm <= PACKAGE_SIZE ->
  length md <= PACKAGE_SIZE ->
  Str.decode nm = Some name ->
  Str.decode md = Some modn ->
  accepts_write kc = true ->
  exists (w' : world) (n : nat) (kc' : sock),
    hello (s, w)
    = (Returns c,
       (mk (base s) (color s) (S (client_colors s))
           (Some (<[c := <["modulation" := modn]>
                            (<["name" := name]>
                               {["color" := color_of (client_colors s)]})]>
                    d))
           (port s),
        w'))
    /\ trace w'
       = trace w ++ repeat (EvSelect l false) polls
                 ++ [EvSelect l true; EvAccept l c;
                     EvRecv c (Returns nm);
                     EvWrite c (Returns n);
                     EvRecv c (Returns md)]
    /\ live c w' = Some kc'
    /\ sk_rx kc' = rx.
Proof.
  intros Hs Hd Hl Hp Hne Hc Hrx Hnm Hmd Hdn Hdm Htx.
  destruct s as [[sk lg] col pos cl pt]. cbn in Hs, Hd. subst sk cl.
  unfold hello. step. rewrite Hl, Hp.
  rewrite (wait_accept_ready _ _ _ _ _ _ _ Hl Hp). step.
  set (w1 := mkWorld _ _ _ _).
  assert (Hc1 : live c w1 = Some kc).
  { apply live_Some in Hc as [Hc Hcl]. apply live_Some. split; [|easy].
    unfold w1. cbn [socks]. now rewrite lookup_insert_ne by congruence. }
  set (s1 := mk _ _ _ _ _).
  rewrite (recv_str_data s1 _ _ _ _ _ _ Hc1 Hrx Hnm Hdn).
  set (kc1 := mkSock _ _ _ (Data md :: rx) _ _).
  set (w2 := emit _ _).
  assert (Hc2 : live c w2 = Some kc1).
  { unfold w2. rewrite live_emit. apply live_set_sock_eq.
    now apply live_Some in Hc as [_ ?]. }
  rewrite (set_field_ok s1 w2 c _ {["color" := color_of pos]}
             "name" name eq_refl)
    by apply lookup_insert_eq.
  cbn [base color client_colors port s1].
  set (s2 := mk _ _ _ _ _).
  destruct (send_str_ok s2 w2 l c _ _ kc1 (color_of pos)
              eq_refl eq_refl (lookup_insert_eq _ _ _) Hc2 Htx)
    as (n & kc2 & Hsend & Hrx2 & Hcl2).
  rewrite Hsend.
  set (w3 := emit _ _).
  assert (Hc3 : live c w3 = Some kc2).
  { unfold w3. rewrite live_emit. now apply live_set_sock_eq. }
  rewrite (recv_str_data s2 w3 c kc2 md rx modn Hc3 Hrx2 Hmd Hdm).
  set (kc3 := mkSock _ _ _ rx _ _).
  set (w4 := emit _ _).
  rewrite (set_field_ok s2 w4 c _ _ "modulation" modn eq_refl)
    by apply lookup_insert_eq.
  exists w4, n, kc3. split; [|split; [|split]].
  - unfold s2. cbn [base color client_colors port].
    now rewrite !insert_insert_eq.
  - unfold w4, w3, w2, emit, set_sock, w1.
    cbn [socks next_id ports_in_use trace].
    rewrite <- !app_assoc. reflexivity.
  - unfold w4. rewrite live_emit. apply live_set_sock_eq.
    unfold kc3. cbn [sk_closed]. exact Hcl2.
  - reflexivity.
Qed.

End HelloFacts.

Section HandshakeClaims.

Import Net Py Node Server.




End HandshakeClaims.

(** ** What a method leaves true of the object *)

Section Keeps.

Import Net Py.

Context {O : Type} (P : O -> Prop).

Lemma keeps_ret {A} (a : A) : keeps P (ret a).
Proof. intros s w H. exact H. Qed.

Lemma keeps_raise {A} (e : exn) : keeps P (@raise O A e).
Proof. intros s w H. exact H. Qed.

Lemma keeps_self : keeps P self.
Proof. intros s w H. exact H. Qed.

Lemma keeps_sys {A} (f : world -> outcome A * world) : keeps P (sys f).
Proof. intros s w H. cbn. now destruct (f w). Qed.

Lemma keeps_sys_ (f : world -> world) : keeps P (sys_ f).
Proof. intros s w H. exact H. Qed.

Lemma keeps_update (f : O -> O) :
  (forall s, P s -> P (f s)) -> keeps P (update f).
Proof. intros Hf s w H. now apply Hf. Qed.

Lemma keeps_bind {A B} (m : M O A) (k : A -> M O B) :
  keeps P m -> (forall a, keeps P (k a)) -> keeps P (bind m k).
Proof.
  intros Hm Hk s w H. specialize (Hm s w H). cbn.
  destruct (m (s, w)) as [[a|e|] [s' w']]; cbn in *; auto.
  now apply Hk.
Qed.

Lemma keeps_try_except {A} (m : M O A) (h : exn -> M O A) :
  keeps P m -> (forall e, keeps P (h e)) -> keeps P (try_except m h).
Proof.
  intros Hm Hh s w H. specialize (Hm s w H). cbn.
  destruct (m (s, w)) as [[a|e|] [s' w']]; cbn in *; auto.
  now apply Hh.
Qed.

End Keeps.

(** Methods built from reads, calls into the socket layer and raises. *)
Ltac keeps_pure :=
  repeat first
    [ apply keeps_ret | apply keeps_raise | apply keeps_self
    | apply keeps_sys | apply keeps_sys_
    | apply keeps_bind; [|intros ?]
    | apply keeps_try_except; [|intros ?]
    | match goal with
      | |- keeps _ (match ?x with _ => _ end) => destruct x
      end ].

Section RegistryClaims.

Import Net Py Node Server.

Lemma keeps_check_client (P : Server.t -> Prop) (c : nat) :
  keeps P (check_client c).
Proof.
  unfold check_client, check_connection, is_open, the_clients.
  keeps_pure.
Qed.

Lemma keeps_recv_str (P : Server.t -> Prop) (c : nat) :
  keeps P (recv_str c).
Proof. unfold recv_str, recv. keeps_pure. Qed.

Lemma keeps_send_str (P : Server.t -> Prop) (c : nat) (str : string)
    (ensure : bool) :
  keeps P (send_str c str ensure).
Proof.
  unfold send_str, send. apply keeps_bind; [apply keeps_check_client|].
  intros _. apply keeps_bind; [apply keeps_check_client|].
  intros _. keeps_pure.
Qed.

Lemma keeps_set_field (l c : nat) (col key v : string) :
  key <> "color" -> keeps (registered l c col) (set_field c key v).
Proof.
  intros Hkey s w (Hs & d & r & Hd & Hr & Hcol).
  rewrite (set_field_ok s w c d r key v Hd Hr). cbn [fst snd].
  split; [exact Hs|].
  exists (<[c := <[key := v]> r]> d), (<[key := v]> r).
  split; [reflexivity|]. split; [apply lookup_insert_eq|].
  now rewrite lookup_insert_ne.
Qed.

Lemma keeps_handshake (l c : nat) (col : string) :
  keeps (registered l c col) (handshake c col).
Proof.
  unfold handshake.
  apply keeps_bind; [apply keeps_recv_str|]. intros name.
  apply keeps_bind; [now apply keeps_set_field|]. intros _.
  apply keeps_bind; [apply keeps_send_str|]. intros _.
  apply keeps_bind; [apply keeps_recv_str|]. intros modulation.
  apply keeps_bind; [now apply keeps_set_field|]. intros _.
  apply keeps_ret.
Qed.

(** Once the connection is accepted, the record exists, however the
    rest of [hello] ends. *)
Lemma hello_registers (s : Server.t) (w : world) (l c polls : nat)
    (d : gmap nat (gmap string string)) (k : sock)
    (rest : list (nat * nat)) :
  socket (base s) = Some l ->
  clients s = Some d ->
  live l w = Some k ->
  sk_pending k = (polls, c) :: rest ->
  registered l c (color_of (client_colors s)) (fst (snd (hello (s, w)))).
Proof.
  intros Hs Hd Hl Hp.
  destruct s as [[sk lg] col pos cl pt]. cbn in Hs, Hd. subst sk cl.
  change hello with
    (bind (@check_connection Server.t _) (fun _ =>
     bind the_socket (fun l =>
     bind (fun st =>
             match live l (snd st) with
             | Some k =>
                 match sk_pending k with
                 | (polls, _) :: _ => wait_accept l polls st
                 | [] => (Hangs, st)
                 end
             | None => wait_accept l 0 st
             end) (fun client =>
     bind next_color (fun color =>
     bind the_clients (fun d =>
     bind (set_clients (Some (<[client := {["color" := color]}]> d)))
          (fun _ => handshake client color))))))).
  cbn -[color_of wait_accept live lookup insert singletonM handshake].
  rewrite Hl, Hp, (wait_accept_ready _ _ _ _ _ _ _ Hl Hp).
  cbn -[color_of wait_accept live lookup insert singletonM handshake].
  apply (keeps_handshake l). split; [reflexivity|].
  exists (<[c := {["color" := color_of pos]}]> d), {["color" := color_of pos]}.
  split; [reflexivity|]. split; [apply lookup_insert_eq|].
  apply lookup_singleton_eq.
Qed.

End RegistryClaims.

Section ByeClaims.

Import Net Py Node Server.

Lemma sock_close_trace (c : nat) (w : world) :
  trace (sock_close c w) = trace w ++ [EvClose c].
Proof. unfold sock_close. now destruct (socks w !! c). Qed.

Lemma sock_close_other (c x : nat) (w : world) :
  x <> c -> socks (sock_close c w) !! x = socks w !! x.
Proof.
  intros Hne. unfold sock_close.
  destruct (socks w !! c); cbn [emit set_sock socks]; [|reflexivity].
  now rewrite lookup_insert_ne by congruence.
Qed.

Lemma sock_close_closed (c : nat) (w : world) (kc : sock) :
  socks w !! c = Some kc ->
  exists kc', socks (sock_close c w) !! c = Some kc'
              /\ sk_closed kc' = true.
Proof.
  intros Hc. unfold sock_close. rewrite Hc. cbn [emit set_sock socks].
  eexists. split; [apply lookup_insert_eq|reflexivity].
Qed.

Lemma sock_close_ports (c : nat) (w : world) :
  ports_in_use (sock_close c w) = ports_in_use w.
Proof. unfold sock_close. now destruct (socks w !! c). Qed.

(** [bye] on a registered client: the socket is closed and the entry is
    deleted; nothing else moves. *)
Lemma bye_ok (s : Server.t) (w : world) (l c : nat)
    (d : gmap nat (gmap string string)) (r : gmap string string) :
  socket (base s) = Some l -> clients s = Some d -> d !! c = Some r ->
  bye c (s, w)
  = (Returns tt,
     (mk (base s) (color s) (client_colors s) (Some (delete c d))
         (port s),
      sock_close c w)).
Proof.
  intros Hs Hd Hr. unfold bye. step.
  rewrite (check_client_ok s w l c d r Hs Hd Hr). step.
  destruct s as [[sk lg] col pos cl pt]. cbn in Hs, Hd. subst sk cl.
  step. now rewrite Hr.
Qed.

(** [disconnect] on an open server: the registry, the log and the socket
    are reset. *)
Lemma disconnect_ok (s : Server.t) (w : world) (l : nat)
    (d : gmap nat (gmap string string)) :
  socket (base s) = Some l -> clients s = Some d ->
  disconnect (s, w)
  = (Returns tt,
     (mk (Node.mk None None) (color s) (client_colors s) None (port s),
      sock_close l (close_all d w))).
Proof.
  intros Hs Hd.
  destruct s as [[sk lg] col pos cl pt]. cbn in Hs, Hd. subst sk cl.
  reflexivity.
Qed.

(** Claim C10: on an open server whose registry contains [c], [bye c]
    returns, deletes the entry of [c] and closes the socket of [c], and
    that is all: the entries of the other clients, the socket and the log
    of the server, the position in the color cycle, and every socket but
    that of [c] - the listening socket among them - are as before; the
    only system call is the [close] of [c]. *)
Theorem bye_frame (s : Server.t) (w : world) (l c : nat)
    (d : gmap nat (gmap string string)) (r : gmap string string) :
  socket (base s) = Some l ->
  clients s = Some d ->
  d !! c = Some r ->
  let res := bye c (s, w) in
  let s' := fst (snd res) in
  let w' := snd (snd res) in
  fst res = Returns tt
  /\ (exists d', clients s' = Some d'
                 /\ d' !! c = None
                 /\ forall c', c' <> c -> d' !! c' = d !! c')
  /\ socket (base s') = Some l
  /\ logs (base s') = logs (base s)
  /\ client_colors s' = client_colors s
  /\ (forall x, x <> c -> socks w' !! x = socks w !! x)
  /\ (forall kc, socks w !! c = Some kc ->
                 exists kc', socks w' !! c = Some kc'
                             /\ sk_closed kc' = true)
  /\ trace w' = trace w ++ [EvClose c].
Proof.
  intros Hs Hd Hr. cbv zeta. rewrite (bye_ok s w l c d r Hs Hd Hr).
  cbn [fst snd clients base client_colors].
  split; [reflexivity|]. split.
  { exists (delete c d). split; [reflexivity|].
    split; [apply lookup_delete_eq|].
    intros c' Hne. now apply lookup_delete_ne. }
  split; [exact Hs|]. split; [reflexivity|]. split; [reflexivity|].
  split; [intros x Hx; now apply sock_close_other|].
  split; [intros kc Hkc; now apply (sock_close_closed c w kc)|].
  apply sock_close_trace.
Qed.

Lemma bye_frame_witness :
  let s := Server.mk (Node.mk (Some 1) (Some ["started"])) GREEN 2
             (Some {[ 7 := {[ "color" := RED; "name" := "bob";
                              "modulation" := AM ]};
                      9 := {[ "color" := GREEN; "name" := "eve";
                              "modulation" := NO_MOD ]} ]})
             (Some DEFAULT_PORT) in
  let w := mkWorld {[ 1 := Scenario.listener [];
                      7 := Scenario.conn [] [];
                      9 := Scenario.conn [] [] ]} 10 [DEFAULT_PORT] [] in
  let res := bye 7 (s, w) in
  let s' := fst (snd res) in
  let w' := snd (snd res) in
  fst res = Returns tt
  /\ (exists d', clients s' = Some d'
                 /\ d' !! 7 = None
                 /\ forall c', c' <> 7 ->
                      d' !! c'
                      = ({[ 7 := {[ "color" := RED; "name" := "bob";
                                    "modulation" := AM ]};
                            9 := {[ "color" := GREEN; "name" := "eve";
                                    "modulation" := NO_MOD ]} ]}
                           : gmap nat (gmap string string)) !! c')
  /\ socket (base s') = Some 1
  /\ logs (base s') = logs (base s)
  /\ client_colors s' = client_colors s
  /\ (forall x, x <> 7 -> socks w' !! x = socks w !! x)
  /\ (forall kc, socks w !! 7 = Some kc ->
                 exists kc', socks w' !! 7 = Some kc'
                             /\ sk_closed kc' = true)
  /\ trace w' = trace w ++ [EvClose 7].
Proof.
  apply (bye_frame
           (Server.mk (Node.mk (Some 1) (Some ["started"])) GREEN 2
              (Some {[ 7 := {[ "color" := RED; "name" := "bob";
                               "modulation" := AM ]};
                       9 := {[ "color" := GREEN; "name" := "eve";
                               "modulation" := NO_MOD ]} ]})
              (Some DEFAULT_PORT))
           (mkWorld {[ 1 := Scenario.listener [];
                       7 := Scenario.conn [] [];
                       9 := Scenario.conn [] [] ]} 10 [DEFAULT_PORT] [])
           1 7
           {[ 7 := {[ "color" := RED; "name" := "bob";
                      "modulation" := AM ]};
              9 := {[ "color" := GREEN; "name" := "eve";
                      "modulation" := NO_MOD ]} ]}
           {[ "color" := RED; "name" := "bob"; "modulation" := AM ]}).
  - reflexivity.
  - reflexivity.
  - vm_compute. reflexivity.
Defined.

End ByeClaims.

Section ConnectClaims.

Import Net Py Node Server.

Lemma int_of_requested (env : Env.t) (port : pyport)
    (st : Server.t * world) :
  int_of env (if falsy port then PortInt DEFAULT_PORT else port) st
  = (match requested env port with
     | Some p => Returns p
     | None => Raises ValueError
     end, st).
Proof.
  unfold requested.
  destruct (if falsy port then PortInt DEFAULT_PORT else port) as [z|str];
    cbn -[Str.int]; [reflexivity|].
  now destruct (Str.int env str).
Qed.

(** A [str] of ASCII characters of ordinary length reads the same on
    every machine. *)
Lemma int_plain (env : Env.t) (str : string) :
  Str.is_ascii str = true ->
  String.length str <= Str.INT_MAX_STR_DIGITS ->
  Str.int env str = Str.int_of_string str.
Proof.
  intros Ha Hl. unfold Str.int. rewrite Ha.
  now rewrite (proj2 (Nat.leb_le _ _) Hl).
Qed.





(** [bind] touches no socket: it only records the port. *)
Lemma sock_bind_socks (env : Env.t) (s : nat) (w : world) (host : string)
    (p : Z) :
  socks (snd (sock_bind env s host p w)) = socks w
  /\ fst (sock_bind env s host p w) <> Hangs.
Proof.
  unfold sock_bind.
  destruct (Env.lookup_host env host), (fits_c_int p), (valid_port p),
    (live s w), (port_taken p w || Env.bind_refused env host p)%bool;
    cbn; now split.
Qed.

(** [connect] up to the end of its [try] block. *)
Lemma connect_eq (env : Env.t) (s : Server.t) (w : world) (host : string)
    (port : pyport) :
  connect env host port (s, w)
  = match requested env port with
    | None => (Raises InvalidPortError, (s, w))
    | Some p =>
        match sock_bind env (next_id w) host p (with_new_sock w) with
        | (Returns _, w') =>
            match sock_listen (next_id w) BACKLOG_SIZE w' with
            | (r, w'') =>
                (r, (mk (Node.mk (Some (next_id w)) (Some []))
                        (color s) (client_colors s) (Some ∅) (Some p),
                     w''))
            end
        | (Raises e, w') =>
            ((if is_OSError e then Raises PortAlreadyUsedError
              else match e with
                   | OverflowError => Raises PortOutOfRangeError
                   | _ =>
                       if is_ValueError e then Raises InvalidPortError
                       else Raises e
                   end), (s, w'))
        | (Hangs, w') => (Hangs, (s, w'))
        end
    end.
Proof.
  destruct s as [[sk lg] col pos cl pt].
  unfold connect. step. rewrite int_of_requested.
  destruct (requested env port) as [p|]; [|reflexivity]. step.
  change (mkWorld (<[next_id w := new_sock]> (socks w)) (S (next_id w))
                  (ports_in_use w) (trace w))
    with (with_new_sock w).
  destruct (sock_bind env (next_id w) host p (with_new_sock w))
    as [[[]|e|] w']; step.
  - now destruct (sock_listen (next_id w) BACKLOG_SIZE w').
  - destruct e; reflexivity.
  - reflexivity.
Qed.




End ConnectClaims.

Section LifetimeClaims.

Import Net Py Node Server.

Lemma keeps_wait_accept (P : Server.t -> Prop) (l polls : nat) :
  keeps P (wait_accept l polls).
Proof.
  induction polls as [|polls IH]; rewrite wait_accept_eq;
    (apply keeps_bind; [apply keeps_sys|]); intros []; try apply keeps_sys.
  - intros s w H. exact H.
  - exact IH.
Qed.

Lemma keeps_next_color (l c : nat) : keeps (has_record l c) next_color.
Proof.
  unfold next_color. apply keeps_bind; [apply keeps_self|]. intros s0.
  apply keeps_bind; [|intros _; apply keeps_ret].
  apply keeps_update. intros s (Hs & d & r & Hd & Hr).
  split; [exact Hs|]. now exists d, r.
Qed.

Lemma keeps_set_field_record (l c x : nat) (key v : string) :
  keeps (has_record l c) (set_field x key v).
Proof.
  intros s w (Hs & d & r & Hd & Hr).
  destruct s as [[sk lg] col pos cl pt]. cbn in Hs, Hd. subst sk cl.
  unfold set_field, the_clients. step.
  destruct (d !! x) as [rx|] eqn:Hx; step.
  - split; [reflexivity|]. destruct (decide (x = c)) as [->|Hne].
    + eexists _, _. split; [reflexivity|]. apply lookup_insert_eq.
    + exists (<[x := <[key := v]> rx]> d), r. split; [reflexivity|].
      now rewrite lookup_insert_ne.
  - split; [reflexivity|]. now exists d, r.
Qed.

Lemma keeps_handshake_record (l c x : nat) (col : string) :
  keeps (has_record l c) (handshake x col).
Proof.
  unfold handshake.
  apply keeps_bind; [apply keeps_recv_str|]. intros name.
  apply keeps_bind; [apply keeps_set_field_record|]. intros _.
  apply keeps_bind; [apply keeps_send_str|]. intros _.
  apply keeps_bind; [apply keeps_recv_str|]. intros modulation.
  apply keeps_bind; [apply keeps_set_field_record|]. intros _.
  apply keeps_ret.
Qed.

(** [hello] for a further connection: the new record is put beside the
    others (or over the record of the same descriptor). *)
Lemma keeps_hello (l c : nat) : keeps (has_record l c) hello.
Proof.
  change hello with
    (bind (@check_connection Server.t _) (fun _ =>
     bind the_socket (fun l =>
     bind (fun st =>
             match live l (snd st) with
             | Some k =>
                 match sk_pending k with
                 | (polls, _) :: _ => wait_accept l polls st
                 | [] => (Hangs, st)
                 end
             | None => wait_accept l 0 st
             end) (fun client =>
     bind next_color (fun color =>
     bind the_clients (fun d =>
     bind (set_clients (Some (<[client := {["color" := color]}]> d)))
          (fun _ => handshake client color))))))).
  apply keeps_bind; [unfold check_connection, is_open; keeps_pure|].
  intros _.
  apply keeps_bind; [unfold the_socket, get_socket; keeps_pure|].
  intros l0. apply keeps_bind.
  { intros s w H. cbn [snd].
    destruct (live l0 w) as [k|];
      [destruct (sk_pending k) as [|[polls ?] ?]|];
      try exact H; now apply keeps_wait_accept. }
  intros x. apply keeps_bind; [apply keeps_next_color|]. intros col.
  intros s w (Hs & d & r & Hd & Hr).
  destruct s as [[sk lg] cl pos cls pt]. cbn in Hs, Hd. subst sk cls.
  cbn -[handshake lookup insert singletonM].
  apply keeps_handshake_record. split; [reflexivity|].
  destruct (decide (x = c)) as [->|Hne].
  - eexists _, _. split; [reflexivity|]. apply lookup_insert_eq.
  - exists (<[x := {["color" := col]}]> d), r. split; [reflexivity|].
    now rewrite lookup_insert_ne.
Qed.

Lemma keeps_get_field (P : Server.t -> Prop) (key : string) (x : nat) :
  keeps P (get_field key x).
Proof.
  unfold get_field. apply keeps_bind; [apply keeps_check_client|].
  intros _. unfold the_clients. keeps_pure.
Qed.

Lemma keeps_send (P : Server.t -> Prop) (x : nat) (package : list Z)
    (ensure : bool) :
  keeps P (send x package ensure).
Proof.
  unfold send. apply keeps_bind; [apply keeps_check_client|].
  intros _. keeps_pure.
Qed.

Lemma keeps_send_each (P : Server.t -> Prop) (targets : list nat)
    (package : list Z) (ensure : bool) :
  keeps P (send_each targets package ensure).
Proof.
  induction targets as [|x targets IH]; [apply keeps_ret|].
  cbn [send_each]. apply keeps_bind; [apply keeps_send|].
  intros _. exact IH.
Qed.

Lemma keeps_broadcast (P : Server.t -> Prop) (package : list Z)
    (black_list : list nat) (ensure : bool) :
  keeps P (broadcast package black_list ensure).
Proof.
  unfold broadcast.
  apply keeps_bind; [unfold check_connection, is_open; keeps_pure|].
  intros _. apply keeps_bind; [unfold the_clients; keeps_pure|].
  intros d. apply keeps_send_each.
Qed.

Lemma keeps_log (l c : nat) (message : option string) :
  keeps (has_record l c) (log message).
Proof.
  unfold log.
  apply keeps_bind; [unfold check_connection, is_open; keeps_pure|].
  intros _. destruct message as [m|]; [|apply keeps_ret].
  apply keeps_bind; [unfold get_logs; keeps_pure|].
  intros [lg|]; [|apply keeps_raise].
  unfold set_logs. apply keeps_update.
  intros s (Hs & d & r & Hd & Hr). split; [exact Hs|]. now exists d, r.
Qed.

(** [bye] of another client leaves the record alone, whether that
    client is registered or not. *)
Lemma keeps_bye_other (l c x : nat) :
  x <> c -> keeps (has_record l c) (bye x).
Proof.
  intros Hne s w (Hs & d & r & Hd & Hr).
  destruct (d !! x) as [rx|] eqn:Hx.
  - rewrite (bye_ok s w l x d rx Hs Hd Hx). cbn [fst snd].
    split; [exact Hs|]. exists (delete x d), r. split; [reflexivity|].
    now rewrite lookup_delete_ne.
  - destruct s as [[sk lg] cl pos cls pt]. cbn in Hs, Hd. subst sk cls.
    unfold bye, check_client, check_connection, is_open, the_clients.
    step. rewrite Hx. step. split; [reflexivity|]. now exists d, r.
Qed.

(** [connect] either goes through, and the server is opened anew with an
    empty registry, or raises, and the server is as it was. *)
Lemma connect_cases (env : Env.t) (s : Server.t) (w : world)
    (host : string) (port : pyport) :
  (exists p w',
      connect env host port (s, w)
      = (Returns tt,
         (mk (Node.mk (Some (next_id w)) (Some []))
             (color s) (client_colors s) (Some ∅) (Some p), w')))
  \/ (exists e w', connect env host port (s, w) = (Raises e, (s, w'))).
Proof.
  rewrite connect_eq.
  destruct (requested env port) as [p|]; [|right; eauto].
  pose proof (sock_bind_socks env (next_id w) (with_new_sock w) host p)
    as [Hsocks Hhangs].
  destruct (sock_bind env (next_id w) host p (with_new_sock w))
    as [[[]|e|] w']; cbn [fst snd] in Hsocks, Hhangs.
  - left. exists p.
    assert (Hlive : live (next_id w) w' = Some new_sock).
    { unfold live. rewrite Hsocks. unfold with_new_sock. cbn [socks].
      now rewrite lookup_insert_eq. }
    unfold sock_listen. rewrite Hlive. eauto.
  - right.
    destruct (is_OSError e); [eauto|].
    destruct e; cbn [is_ValueError]; eauto.
  - now contradiction Hhangs.
Qed.

(** Claim C5, refuted as stated.  The connection is accepted and the
    peer resets it before sending a name: the handshake never completes,
    [hello] raises, and the registry holds a record for the client, with
    a color and nothing else. *)
Lemma record_exists_without_handshake :
  let w := Scenario.world_of [(0, 7)] [RecvFails ConnectionResetError] [] in
  let r := hello (Scenario.server, w) in
  fst r = Raises ConnectionResetError
  /\ (clients (fst (snd r)) ≫= (.!! 7)) = Some {["color" := RED]}.
Proof. cbv zeta. split; vm_compute; reflexivity. Qed.

(** Claim C5, amended.  On an open server the record of a client is
    created by [hello] when the connection is accepted, before anything
    is received: however the handshake ends, the registry then holds a
    record for the client, with its color.  The record stays, on a server
    that stays open, through every other operation: [hello] for a further
    connection, [bye] of another client, [check_client], the getters,
    [recv], [recv_str], [send], [send_str], [broadcast],
    [broadcast_str] and [log], whether they return, raise or hang, and a
    [connect] that raises.  It goes in three ways: [bye] of the client
    deletes it, [disconnect] drops the whole registry, and a [connect]
    that goes through replaces the registry by an empty one. *)
Theorem record_lifetime (s : Server.t) (w : world) (l c polls : nat)
    (d : gmap nat (gmap string string)) (k : sock)
    (rest : list (nat * nat)) :
  socket (base s) = Some l ->
  clients s = Some d ->
  live l w = Some k ->
  sk_pending k = (polls, c) :: rest ->
  let s1 := fst (snd (hello (s, w))) in
  (exists d1 r,
      clients s1 = Some d1
      /\ d1 !! c = Some r
      /\ r !! "color" = Some (color_of (client_colors s)))
  /\ has_record l c s1
  /\ (forall (x : nat) (package : list Z) (str : string)
             (black_list : list nat) (ensure : bool)
             (message : option string),
         keeps (has_record l c) hello
         /\ (x <> c -> keeps (has_record l c) (bye x))
         /\ keeps (has_record l c) (check_client x)
         /\ keeps (has_record l c) (get_name x)
         /\ keeps (has_record l c) (get_color x)
         /\ keeps (has_record l c) (get_modulation x)
         /\ keeps (has_record l c) (recv x)
         /\ keeps (has_record l c) (recv_str x)
         /\ keeps (has_record l c) (send x package ensure)
         /\ keeps (has_record l c) (send_str x str ensure)
         /\ keeps (has_record l c) (broadcast package black_list ensure)
         /\ keeps (has_record l c) (broadcast_str str black_list ensure)
         /\ keeps (has_record l c) (log message))
  /\ (forall s2 w2 env host port e,
         has_record l c s2 ->
         fst (connect env host port (s2, w2)) = Raises e ->
         has_record l c (fst (snd (connect env host port (s2, w2)))))
  /\ (forall s2 w2,
         has_record l c s2 ->
         exists d2,
           fst (bye c (s2, w2)) = Returns tt
           /\ clients (fst (snd (bye c (s2, w2)))) = Some d2
           /\ d2 !! c = None)
  /\ (forall s2 w2,
         has_record l c s2 ->
         clients (fst (snd (disconnect (s2, w2)))) = None)
  /\ (forall s2 w2 env host port,
         fst (connect env host port (s2, w2)) = Returns tt ->
         clients (fst (snd (connect env host port (s2, w2)))) = Some ∅).
Proof.
  intros Hs Hd Hl Hp. cbv zeta.
  destruct (hello_registers s w l c polls d k rest Hs Hd Hl Hp)
    as (Hs1 & d1 & r & Hd1 & Hr & Hcol).
  split; [now exists d1, r|].
  split; [split; [exact Hs1|now exists d1, r]|].
  split; [|split; [|split; [|split]]].
  - intros x package str black_list ensure message.
    split; [apply keeps_hello|].
    split; [intros Hne; now apply keeps_bye_other|].
    split; [apply keeps_check_client|].
    split; [apply keeps_get_field|].
    split; [apply keeps_get_field|].
    split; [apply keeps_get_field|].
    split; [unfold recv; apply keeps_sys|].
    split; [apply keeps_recv_str|].
    split; [apply keeps_send|].
    split; [apply keeps_send_str|].
    split; [apply keeps_broadcast|].
    split; [apply keeps_broadcast|].
    apply keeps_log.
  - intros s2 w2 env host port e H2 He.
    destruct (connect_cases env s2 w2 host port)
      as [(p & w' & E)|(e' & w' & E)]; rewrite E in He |- *.
    + discriminate He.
    + exact H2.
  - intros s2 w2 (Hs2 & d2 & r2 & Hd2 & Hr2).
    rewrite (bye_ok _ w2 l c d2 r2 Hs2 Hd2 Hr2).
    cbn [fst snd clients]. eexists. split; [reflexivity|].
    split; [reflexivity|]. apply lookup_delete_eq.
  - intros s2 w2 (Hs2 & d2 & r2 & Hd2 & Hr2).
    now rewrite (disconnect_ok _ w2 l d2 Hs2 Hd2).
  - intros s2 w2 env host port He.
    destruct (connect_cases env s2 w2 host port)
      as [(p & w' & E)|(e' & w' & E)]; rewrite E in He |- *.
    + reflexivity.
    + discriminate He.
Qed.

Lemma record_lifetime_witness :
  let w := Scenario.world_of [(0, 7)] [RecvFails ConnectionResetError] [] in
  let s1 := fst (snd (hello (Scenario.server, w))) in
  (exists d1 r,
      clients s1 = Some d1
      /\ d1 !! 7 = Some r
      /\ r !! "color" = Some RED)
  /\ has_record 1 7 s1
  /\ has_record 1 7 (fst (snd (send_str 9 "hi" true (s1, w))))
  /\ has_record 1 7 (fst (snd (bye 9 (s1, w))))
  /\ has_record 1 7
       (fst (snd (connect Scenario.env "" (PortStr "abc") (s1, w))))
  /\ (exists d2,
         fst (bye 7 (s1, w)) = Returns tt
         /\ clients (fst (snd (bye 7 (s1, w)))) = Some d2
         /\ d2 !! 7 = None)
  /\ clients (fst (snd (disconnect (s1, w)))) = None
  /\ clients
       (fst (snd (connect Scenario.env "" (PortInt 33001) (s1, w))))
     = Some ∅.
Proof.
  destruct (record_lifetime Scenario.server
              (Scenario.world_of [(0, 7)]
                 [RecvFails ConnectionResetError] [])
              1 7 0 ∅ (Scenario.listener [(0, 7)]) []
              eq_refl eq_refl eq_refl eq_refl)
    as (Hnew & Hrec & Hkeeps & Hfail & Hbye & Hdis & Hcon).
  cbv zeta.
  destruct (Hkeeps 9 [] "hi" [] true None)
    as (_ & Hbye9 & _ & _ & _ & _ & _ & _ & _ & Hsend & _).
  split; [exact Hnew|]. split; [exact Hrec|].
  split; [now apply Hsend|].
  split; [apply Hbye9; [discriminate|exact Hrec]|].
  split; [apply (Hfail _ _ _ _ _ InvalidPortError Hrec); reflexivity|].
  split; [now apply Hbye|].
  split; [now apply Hdis|].
  apply Hcon. reflexivity.
Defined.

End LifetimeClaims.

Section GuardClaims.

Import Net Py Node.

(** The helpers that check the session first: on a closed session they
    raise [SocketError] and leave the sockets alone. *)
Lemma guarded_when_closed (c : Client.t) (s : Server.t) (w : world)
    (x : nat) (package : list Z) (ensure : bool) :
  socket (Client.base c) = None ->
  socket (Server.base s) = None ->
  Client.recv (c, w) = (Raises SocketError, (c, w))
  /\ Client.send package ensure (c, w) = (Raises SocketError, (c, w))
  /\ Server.send x package ensure (s, w) = (Raises SocketError, (s, w)).
Proof.
  intros Hc Hs.
  destruct c as [[sk lg] nm md cl]. cbn in Hc. subst sk.
  destruct s as [[sk lg'] col pos cls pt]. cbn in Hs. subst sk.
  repeat split; reflexivity.
Qed.

(** Claim C7, at the helper where the code departs from it.  The claim
    has every I/O helper fail with [SocketError] on a closed session,
    without touching a socket.  [Server.recv] has no such check: on a
    server that was never connected it reads from the socket it is
    given and returns the bytes.  ([Client.recv], [Client.send] and
    [Server.send] do check: [guarded_when_closed].) *)
Theorem server_recv_on_closed_server :
  let s := Server.init GREEN in
  let w := Scenario.world_of [] [Data [1; 2]%Z] [] in
  let r := Server.recv 7 (s, w) in
  socket (Server.base s) = None
  /\ fst r = Returns [1; 2]%Z
  /\ trace (snd (snd r)) = [EvRecv 7 (Returns [1; 2]%Z)]
  /\ Scenario.unread 7 (snd (snd r)) = [].
Proof. cbv zeta. repeat split; vm_compute; reflexivity. Qed.

(** Claim C1, on a connection where the code departs from it.  The
    claim has [ensure=True] write the whole buffer and [ensure=False]
    make a single attempt.  The kernel takes one byte at the first
    write.  With [ensure=True] both [send] methods call [socket.send]
    once: one byte of three is on the wire when they return.  With
    [ensure=False] they call [socket.sendall]: two writes, and the whole
    buffer is on the wire. *)
Theorem send_ensure_is_single_write :
  let w := Scenario.world_of [] [] [Accepts 1] in
  let package := [10; 20; 30]%Z in
  let c1 := Client.send package true (Scenario.client, w) in
  let c0 := Client.send package false (Scenario.client, w) in
  let s1 := Server.send 7 package true (Scenario.server_with_client, w) in
  let s0 := Server.send 7 package false (Scenario.server_with_client, w) in
  (fst c1 = Returns (Some 1)
   /\ Scenario.wire 7 (snd (snd c1)) = [10]%Z
   /\ trace (snd (snd c1)) = [EvWrite 7 (Returns 1)])
  /\ (fst c0 = Returns None
      /\ Scenario.wire 7 (snd (snd c0)) = [10; 20; 30]%Z
      /\ trace (snd (snd c0))
         = [EvWrite 7 (Returns 1); EvWrite 7 (Returns 2)])
  /\ (fst s1 = Returns (Some 1)
      /\ Scenario.wire 7 (snd (snd s1)) = [10]%Z
      /\ trace (snd (snd s1)) = [EvWrite 7 (Returns 1)])
  /\ (fst s0 = Returns None
      /\ Scenario.wire 7 (snd (snd s0)) = [10; 20; 30]%Z
      /\ trace (snd (snd s0))
         = [EvWrite 7 (Returns 1); EvWrite 7 (Returns 2)]).
Proof. cbv zeta. repeat split; vm_compute; reflexivity. Qed.

End GuardClaims.

(** * Further properties of the signal processor *)

Section ModulatorMore.

Import Np Modulator.

Lemma check_modulation_valid (m : string) :
  In m modulations -> check_modulation m = Returns tt.
Proof. intros [<-|[<-|[<-|[]]]]; reflexivity. Qed.

Lemma check_modulation_invalid (m : string) :
  ~ In m modulations -> check_modulation m = Raises InvalidModulationTypeError.
Proof.
  intros Hm. unfold check_modulation.
  destruct (existsb (String.eqb m) modulations) eqn:E; [|reflexivity].
  apply existsb_exists in E as (x & Hx & Heq).
  apply String.eqb_eq in Heq. subst x. contradiction.
Qed.

(** Lists two elements at a time. *)
Lemma list_pair_ind {A : Type} (P : list A -> Prop) :
  P [] -> (forall x, P [x]) ->
  (forall x y l, P l -> P (x :: y :: l)) ->
  forall l, P l.
Proof.
  intros H0 H1 H2 l.
  assert (H : P l /\ forall x, P (x :: l)).
  { induction l as [|a l [IH1 IH2]]; [now split|].
    split; [apply IH2|]. intros x. now apply H2. }
  apply H.
Qed.

Lemma frombuffer_odd (b : list Z) :
  Nat.odd (length b) = true -> frombuffer b = None.
Proof.
  induction b as [|x|x y l IH] using list_pair_ind; intros Hodd.
  - discriminate.
  - reflexivity.
  - cbn [frombuffer]. rewrite IH; [reflexivity|].
    cbn [length] in Hodd. now rewrite Nat.odd_succ_succ in Hodd.
Qed.

Lemma wrap16_range (z : Z) : is_int16 (wrap16 z).
Proof.
  unfold is_int16, wrap16.
  pose proof (Z.mod_pos_bound (z + 32768) 65536). lia.
Qed.

Lemma frombuffer_even (b : list Z) :
  Nat.even (length b) = true ->
  exists xs, frombuffer b = Some xs
             /\ 2 * length xs = length b
             /\ Forall is_int16 xs.
Proof.
  induction b as [|x|x y l IH] using list_pair_ind; intros Hev.
  - exists []. repeat split. constructor.
  - discriminate.
  - cbn [length] in Hev. rewrite Nat.even_succ_succ in Hev.
    destruct (IH Hev) as (xs & Hxs & Hlen & Hall).
    exists (int16_of_bytes x y :: xs). cbn [frombuffer]. rewrite Hxs.
    split; [reflexivity|]. split; [cbn [length]; lia|].
    constructor; [apply wrap16_range | exact Hall].
Qed.

Lemma init_bytes_odd (m : string) (b : list Z) :
  In m modulations -> Nat.odd (length b) = true ->
  init m (PyBytes b) = Raises ValueError.
Proof.
  intros Hm Hodd. unfold init. rewrite check_modulation_valid by exact Hm.
  cbn [set_signal]. now rewrite frombuffer_odd.
Qed.

Lemma init_bytes_even (m : string) (b : list Z) :
  In m modulations -> Nat.even (length b) = true ->
  exists xs,
    init m (PyBytes b) = Returns (mk m (Int16Array xs))
    /\ 2 * length xs = length b
    /\ Forall is_int16 xs.
Proof.
  intros Hm Hev. destruct (frombuffer_even b Hev) as (xs & Hxs & Hlen & Hall).
  exists xs. split; [|now split].
  unfold init. rewrite check_modulation_valid by exact Hm.
  cbn [set_signal]. now rewrite Hxs.
Qed.

(** [Modulator(modulation, signal)] checks the modulation first: an
    unknown tag raises [InvalidModulationTypeError] whatever the signal is;
    with a known tag, a signal that is neither bytes nor an array raises
    [InvalidSignalTypeError], and a byte buffer of odd length raises the
    [ValueError] of [np.frombuffer]. *)
Theorem init_rejects (m : string) (s : pyobj) :
  (~ In m modulations -> init m s = Raises InvalidModulationTypeError)
  /\ (In m modulations -> s = PyOther ->
      init m s = Raises InvalidSignalTypeError)
  /\ (In m modulations ->
      forall b, s = PyBytes b -> Nat.odd (length b) = true ->
                init m s = Raises ValueError).
Proof.
  unfold init. repeat split.
  - intros Hm. now rewrite check_modulation_invalid.
  - intros Hm ->. now rewrite check_modulation_valid.
  - intros Hm b -> Hodd. fold (init m (PyBytes b)).
    now apply init_bytes_odd.
Qed.

Lemma init_rejects_witness :
  init "fm" (PyBytes [0; 0]%Z) = Raises InvalidModulationTypeError
  /\ init AM PyOther = Raises InvalidSignalTypeError
  /\ init AM_SC (PyBytes [1; 2; 3]%Z) = Raises ValueError.
Proof.
  split; [|split].
  - apply (proj1 (init_rejects "fm" (PyBytes [0; 0]%Z))).
    intros [H|[H|[H|[]]]]; discriminate H.
  - apply (proj1 (proj2 (init_rejects AM PyOther))); [simpl; auto|reflexivity].
  - apply (proj2 (proj2 (init_rejects AM_SC (PyBytes [1; 2; 3]%Z)))
             (or_intror (or_introl eq_refl)) [1; 2; 3]%Z eq_refl).
    reflexivity.
Defined.

(** A byte buffer of even length is always accepted with a known
    modulation: it decodes to half as many samples, each a valid int16. *)
Theorem init_bytes_samples (m : string) (b : list Z) :
  In m modulations ->
  Nat.even (length b) = true ->
  exists xs,
    init m (PyBytes b) = Returns (mk m (Int16Array xs))
    /\ 2 * length xs = length b
    /\ Forall is_int16 xs.
Proof.
  intros Hm Hev.
  destruct (init_bytes_even m b Hm Hev) as (xs & Hinit & Hlen & Hall).
  exists xs. split; [exact Hinit|]. split; [lia|exact Hall].
Qed.

Lemma init_bytes_samples_witness :
  exists xs,
    init AM (PyBytes [255; 255; 0; 128; 7; 9]%Z)
    = Returns (mk AM (Int16Array xs))
    /\ 2 * length xs = 6
    /\ Forall is_int16 xs.
Proof.
  apply (init_bytes_samples AM [255; 255; 0; 128; 7; 9]%Z).
  - simpl. auto.
  - reflexivity.
Defined.

Local Open Scope Z_scope.

Lemma land_255 (z : Z) : Z.land z 255 = z mod 256.
Proof. change 255 with (Z.ones 8). now rewrite Z.land_ones by lia. Qed.

Lemma int16_bytes_are_bytes (z : Z) : Forall is_byte (int16_bytes z).
Proof.
  unfold int16_bytes, is_byte. rewrite !land_255.
  repeat constructor; apply Z.mod_pos_bound; lia.
Qed.

Lemma lor_bytes (lo hi : Z) :
  is_byte lo -> is_byte hi ->
  Z.lor lo (Z.shiftl hi 8) = lo + 256 * hi.
Proof.
  intros Hlo Hhi. unfold is_byte in *.
  assert (Hd : Z.land lo (Z.shiftl hi 8) = 0).
  { apply Z.bits_inj'. intros n Hn.
    rewrite Z.land_spec, Z.bits_0.
    destruct (Z.ltb_spec n 8).
    - rewrite Z.shiftl_spec_low by lia. apply andb_false_r.
    - rewrite <- (Z.mod_small lo (2 ^ 8)) by (simpl; lia).
      now rewrite Z.mod_pow2_bits_high by lia. }
  rewrite <- Z.lxor_lor, <- Z.add_nocarry_lxor by exact Hd.
  rewrite Z.shiftl_mul_pow2 by lia. change (2 ^ 8) with 256. lia.
Qed.

(** Writing out the sample read from two bytes gives the two bytes. *)
Lemma bytes_int16_roundtrip (lo hi : Z) :
  is_byte lo -> is_byte hi ->
  int16_bytes (int16_of_bytes lo hi) = [lo; hi].
Proof.
  intros Hlo Hhi. unfold int16_bytes, int16_of_bytes.
  rewrite lor_bytes by assumption.
  rewrite !land_255, Z.shiftr_div_pow2 by lia. change (2 ^ 8) with 256.
  unfold wrap16, is_byte in *.
  f_equal; [|f_equal]; Z.to_euclidean_division_equations; lia.
Qed.

Lemma tobytes_frombuffer (b : list Z) :
  Forall is_byte b ->
  forall xs, frombuffer b = Some xs -> tobytes xs = b.
Proof.
  induction b as [|x|x y l IH] using list_pair_ind; intros Hb xs Hxs.
  - injection Hxs as <-. reflexivity.
  - discriminate.
  - cbn [frombuffer] in Hxs.
    destruct (frombuffer l) as [ys|] eqn:E; [|discriminate].
    injection Hxs as <-.
    inversion Hb as [|? ? Hx Hb']; subst. inversion Hb' as [|? ? Hy Hl]; subst.
    change (tobytes (int16_of_bytes x y :: ys))
      with (int16_bytes (int16_of_bytes x y) ++ tobytes ys).
    rewrite bytes_int16_roundtrip by assumption.
    now rewrite (IH Hl ys eq_refl).
Qed.

Local Close Scope Z_scope.

(** Encoding after decoding is the identity on packets: a buffer of
    bytes of even length, read with a known modulation, is encoded back to
    the same bytes. *)
Theorem encode_decode_bytes (m : string) (b : list Z) :
  In m modulations ->
  Forall is_byte b ->
  Nat.even (length b) = true ->
  exists x, init m (PyBytes b) = Returns x /\ encode x = b.
Proof.
  intros Hm Hb Hev.
  destruct (frombuffer_even b Hev) as (xs & Hxs & _ & _).
  exists (mk m (Int16Array xs)). split.
  - unfold init. rewrite check_modulation_valid by exact Hm.
    cbn [set_signal]. now rewrite Hxs.
  - unfold encode. cbn [signal astype_int16].
    now apply tobytes_frombuffer.
Qed.

Lemma encode_decode_bytes_witness :
  exists x,
    init AM_SC (PyBytes [255; 255; 0; 128; 7; 9]%Z) = Returns x
    /\ encode x = [255; 255; 0; 128; 7; 9]%Z.
Proof.
  apply (encode_decode_bytes AM_SC [255; 255; 0; 128; 7; 9]%Z).
  - simpl. auto.
  - repeat constructor; unfold is_byte; lia.
  - reflexivity.
Defined.

Lemma encode_is_bytes (m : Modulator.t) : Forall is_byte (encode m).
Proof.
  unfold encode, tobytes.
  induction (astype_int16 (signal m)) as [|z l IH]; [constructor|].
  cbn [flat_map]. apply Forall_app. split; [|exact IH].
  apply int16_bytes_are_bytes.
Qed.

Lemma length_encode (m : Modulator.t) :
  length (encode m) = 2 * size (signal m).
Proof. unfold encode. now rewrite length_tobytes, length_astype_int16. Qed.

(** [encode] always produces bytes, two per sample, whatever the dtype
    and the values of the signal; read back as a packet they give a signal
    of valid int16 samples, as many as before. *)
Theorem encode_bytes (m : Modulator.t) :
  Forall is_byte (encode m)
  /\ length (encode m) = 2 * size (signal m)
  /\ exists xs,
       init NO_MOD (PyBytes (encode m)) = Returns (mk NO_MOD (Int16Array xs))
       /\ length xs = size (signal m)
       /\ Forall is_int16 xs.
Proof.
  split; [apply encode_is_bytes|]. split; [apply length_encode|].
  destruct (frombuffer_even (encode m)) as (xs & Hxs & Hlen & Hall).
  { rewrite length_encode. apply Nat.even_spec. now exists (size (signal m)). }
  exists xs. rewrite length_encode in Hlen.
  split; [|split; [lia|exact Hall]].
  unfold init. cbn [set_signal].
  change (check_modulation NO_MOD) with (Returns tt). now rewrite Hxs.
Qed.

End ModulatorMore.

Section OutputMore.

Import Np Modulator.

Lemma rows_of_concat {A : Type} (r c : nat) (l : list A) :
  r * c = length l -> concat (rows_of r c l) = l.
Proof.
  revert l. induction r as [|r IH]; intros l Hl; cbn [rows_of concat].
  - destruct l; [reflexivity|discriminate].
  - rewrite IH; [apply firstn_skipn|].
    rewrite length_skipn. cbn in Hl. lia.
Qed.

Lemma rows_of_length {A : Type} (r c : nat) (l : list A) :
  length (rows_of r c l) = r.
Proof.
  revert l. induction r as [|r IH]; intros l; cbn [rows_of length];
    [reflexivity|]. now rewrite IH.
Qed.

Lemma rows_of_width {A : Type} (r c : nat) (l : list A) :
  r * c = length l -> Forall (fun row => length row = c) (rows_of r c l).
Proof.
  revert l. induction r as [|r IH]; intros l Hl; cbn [rows_of];
    constructor.
  - rewrite length_firstn. cbn in Hl. lia.
  - apply IH. rewrite length_skipn. cbn in Hl. lia.
Qed.

Lemma astype_int16_rows_concat (a : ndarray) (r c : nat) (a2 : ndarray2) :
  reshape a r c = Returns a2 ->
  concat (astype_int16_rows a2) = astype_int16 a
  /\ length (astype_int16_rows a2) = r
  /\ Forall (fun row => length row = c) (astype_int16_rows a2).
Proof.
  unfold reshape. destruct (Nat.eqb_spec (r * c) (size a)) as [H|];
    [|discriminate].
  intros [= <-]. destruct a as [xs|xs]; cbn [astype_int16_rows astype_int16].
  - split; [now apply rows_of_concat|].
    split; [apply rows_of_length | now apply rows_of_width].
  - rewrite <- concat_map, rows_of_concat by exact H.
    split; [reflexivity|]. rewrite length_map, rows_of_length.
    split; [reflexivity|].
    apply List.Forall_map.
    eapply List.Forall_impl; [|apply (rows_of_width r c xs H)].
    intros row Hrow. now rewrite length_map.
Qed.

Lemma output_even (m : Modulator.t) :
  Nat.even (size (signal m)) = true ->
  exists f,
    output m = Returns f
    /\ 2 * length f = size (signal m)
    /\ Forall (fun row => length row = 2) f
    /\ concat f = astype_int16 (signal m).
Proof.
  unfold output. change CHANNELS with 2.
  intros Hev. apply Nat.even_spec in Hev as [k Hk].
  assert (Hdiv : size (signal m) / 2 = k).
  { rewrite Hk, Nat.mul_comm. now apply Nat.div_mul. }
  destruct (reshape (signal m) (size (signal m) / 2) 2) as [a2| |] eqn:E.
  - destruct (astype_int16_rows_concat _ _ _ _ E) as (Hc & Hl & Hw).
    eexists. split; [reflexivity|]. rewrite Hl, Hdiv.
    split; [lia|]. now split.
  - unfold reshape in E. rewrite Hdiv in E.
    destruct (Nat.eqb_spec (k * 2) (size (signal m))); [discriminate|lia].
  - unfold reshape in E.
    destruct (size (signal m) / 2 * 2 =? size (signal m)); discriminate.
Qed.

Lemma output_odd (m : Modulator.t) :
  Nat.odd (size (signal m)) = true -> output m = Raises ValueError.
Proof.
  unfold output. change CHANNELS with 2.
  intros Hodd. apply Nat.odd_spec in Hodd as [k Hk].
  unfold reshape.
  destruct (Nat.eqb_spec (size (signal m) / 2 * 2) (size (signal m)))
    as [H|]; [|reflexivity].
  exfalso. pose proof (Nat.div_mod_eq (size (signal m)) 2).
  assert (size (signal m) mod 2 = 1).
  { rewrite Hk, Nat.add_comm, Nat.mul_comm. now rewrite Nat.Div0.mod_add. }
  lia.
Qed.

(** [output()] on a signal with an even number of samples returns the
    samples, converted to int16, as frames of two in their order: half as
    many frames as samples, which laid end to end are the samples.  On an
    odd number of samples it raises the [ValueError] of [np.reshape]. *)
Theorem output_frames (m : Modulator.t) :
  (Nat.even (size (signal m)) = true ->
   exists f,
     output m = Returns f
     /\ 2 * length f = size (signal m)
     /\ Forall (fun row => length row = 2) f
     /\ concat f = astype_int16 (signal m))
  /\ (Nat.odd (size (signal m)) = true -> output m = Raises ValueError).
Proof.
  split; [apply output_even | apply output_odd].
Qed.

Lemma output_frames_witness :
  (exists f,
      output (mk NO_MOD (Int16Array [1; -2; 3; -4]%Z)) = Returns f
      /\ 2 * length f = 4
      /\ Forall (fun row => length row = 2) f
      /\ concat f = [1; -2; 3; -4]%Z)
  /\ output (mk NO_MOD (Int16Array [1; -2; 3]%Z)) = Raises ValueError.
Proof.
  split.
  - apply (proj1 (output_frames (mk NO_MOD (Int16Array [1; -2; 3; -4]%Z)))).
    reflexivity.
  - apply (proj2 (output_frames (mk NO_MOD (Int16Array [1; -2; 3]%Z)))).
    reflexivity.
Defined.

(** Demodulating what was modulated, in real arithmetic.  With AM-SC and
    without modulation the values of the signal come back.  With AM they
    do not: each sample [s] comes back as |s + 1| / 2. *)
Theorem demodulate_modulate (sig : ndarray) :
  values (signal (demodulate (modulate (mk AM_SC sig)))) = values sig
  /\ values (signal (demodulate (modulate (mk NO_MOD sig)))) = values sig
  /\ values (signal (demodulate (modulate (mk AM sig))))
     = map (fun s => (Rabs (s + 1) / 2)%R) (values sig).
Proof.
  assert (Hmul : forall l : list R, map (fun x => (x * 1)%R) l = l).
  { intros l. rewrite <- (map_id l) at 2. apply map_ext. intros; lra. }
  repeat split.
  - rewrite modulate_AM_SC, demodulate_AM_SC, !am_carrier_ones.
    cbn [signal multiply values size].
    rewrite <- (length_values sig), zip_with_repeat, Hmul.
    rewrite zip_with_repeat. apply Hmul.
  - rewrite modulate_AM. cbv zeta. rewrite am_carrier_ones.
    rewrite demodulate_AM.
    cbn [signal multiply add divide values abs].
    rewrite <- (length_values sig), zip_with_repeat, Hmul.
    rewrite zip_with_repeat, !map_map.
    apply map_ext. intros s.
    unfold Rdiv. rewrite Rabs_mult, (Rabs_right (/ 2)) by lra. reflexivity.
Qed.

(** [lowpass] at the ends of its domain: on an empty signal it raises
    the [ValueError] of [np.convolve]; a signal of one sample goes through
    unchanged (the filter has the single tap 1). *)
Theorem lowpass_small (tag : string) :
  lowpass (mk tag (Float64Array [])) = Raises ValueError
  /\ lowpass (mk tag (Int16Array [])) = Raises ValueError
  /\ (forall x : R,
        lowpass (mk tag (Float64Array [x]))
        = Returns (mk tag (Float64Array [x])))
  /\ (forall z : Z,
        lowpass (mk tag (Int16Array [z]))
        = Returns (mk tag (Float64Array [IZR z]))).
Proof.
  split; [reflexivity|]. split; [reflexivity|].
  assert (H : forall sig x, values sig = [x] ->
                lowpass (mk tag sig) = Returns (mk tag (Float64Array [x]))).
  2:{ split; intros; now apply H. }
  intros sig x Hsig. unfold lowpass, lowpass_signal.
  cbn [signal modulation]. rewrite <- (length_values sig), Hsig.
  cbn [length].
  assert (Hfir : firwin 1 CUTOFF FRAME_RATE = [1%R]).
  { unfold firwin, blackmanharris, zip_with, sinc, sum, CUTOFF, FRAME_RATE.
    cbn [seq map Nat.leb repeat combine fst snd fold_right INR].
    destruct (Req_dec_T _ 0) as [_|Hne];
      [|exfalso; apply Hne; unfold Rdiv; ring].
    f_equal. field. }
  rewrite Hfir.
  unfold convolve_same, convolve_full.
  cbn [length Nat.min Nat.max Nat.add Nat.sub Nat.div Nat.divmod fst seq map
       firstn skipn Nat.leb nth sum fold_right].
  replace (x * 1 + 0)%R with x by lra. reflexivity.
Qed.

End OutputMore.

Section LoopsMore.

Import Np Modulator Loops.

Lemma modulate_keeps (m : Modulator.t) :
  In (modulation m) modulations ->
  size (signal (modulate m)) = size (signal m)
  /\ modulation (modulate m) = modulation m.
Proof.
  destruct m as [tag sig]. cbn [modulation signal].
  intros [<-|[<-|[<-|[]]]].
  - rewrite modulate_AM. cbv zeta. cbn [signal modulation].
    pose proof (length_am_carrier (mk AM sig)) as Hc. cbn [signal] in Hc.
    split; [|reflexivity].
    rewrite size_divide, size_add, size_multiply; auto.
    now rewrite size_multiply.
  - rewrite modulate_AM_SC. cbn [signal modulation].
    split; [|reflexivity].
    apply size_multiply. apply (length_am_carrier (mk AM_SC sig)).
  - now split.
Qed.

Lemma demodulate_keeps (m : Modulator.t) :
  In (modulation m) modulations ->
  size (signal (demodulate m)) = size (signal m)
  /\ modulation (demodulate m) = modulation m.
Proof.
  destruct m as [tag sig]. cbn [modulation signal].
  intros [<-|[<-|[<-|[]]]].
  - rewrite demodulate_AM. cbn [signal modulation].
    split; [apply size_abs|reflexivity].
  - rewrite demodulate_AM_SC. cbn [signal modulation].
    split; [|reflexivity].
    apply size_multiply. apply (length_am_carrier (mk AM_SC sig)).
  - now split.
Qed.

Lemma lowpass_returns (m : Modulator.t) :
  1 <= size (signal m) ->
  exists m', lowpass m = Returns m'
             /\ size (signal m') = size (signal m)
             /\ modulation m' = modulation m.
Proof.
  intros Hlen. unfold lowpass, lowpass_signal.
  destruct (convolve_same_length (values (signal m))
              (firwin (size (signal m)) CUTOFF FRAME_RATE))
    as (out & Hout & Hl).
  - now rewrite length_values.
  - now rewrite length_firwin, length_values.
  - rewrite Hout. eexists. split; [reflexivity|].
    cbn [signal size modulation]. now rewrite Hl, length_values.
Qed.

Lemma init_array (tag : string) (a : ndarray) :
  In tag modulations -> init tag (PyArray a) = Returns (mk tag a).
Proof.
  intros Hm. unfold init. now rewrite check_modulation_valid.
Qed.

(** What the server sends for one block of the microphone: with a known
    modulation and at least one sample, a packet of two bytes per sample.
    For the block that the microphone delivers, [CHUNK_SIZE] frames of
    [CHANNELS] samples, that is exactly [PACKAGE_SIZE] bytes. *)
Theorem packet_size (tag : string) (block : ndarray) :
  In tag modulations ->
  1 <= size block ->
  exists p,
    packet tag block = Returns p
    /\ Forall is_byte p
    /\ length p = 2 * size block
    /\ (size block = CHUNK_SIZE * CHANNELS -> length p = PACKAGE_SIZE).
Proof.
  intros Hm Hlen.
  assert (H : exists p, packet tag block = Returns p
                        /\ Forall is_byte p /\ length p = 2 * size block).
  { unfold packet. rewrite init_array by exact Hm.
    destruct (String.eqb tag NO_MOD).
    - eexists. split; [reflexivity|].
      split; [apply encode_is_bytes | apply length_encode].
    - destruct (lowpass_returns (mk tag block) Hlen) as (f & Hf & Hs & Ht).
      rewrite Hf. eexists. split; [reflexivity|].
      split; [apply encode_is_bytes|].
      rewrite length_encode.
      destruct (modulate_keeps f) as [-> _]; [now rewrite Ht|].
      now rewrite Hs. }
  destruct H as (p & Hp & Hb & Hl). exists p.
  repeat split; try assumption.
  intros Hblock. rewrite Hl, Hblock. reflexivity.
Qed.

Lemma packet_size_witness :
  exists p,
    packet AM (Int16Array (repeat 0%Z (CHUNK_SIZE * CHANNELS))) = Returns p
    /\ length p = PACKAGE_SIZE.
Proof.
  destruct (packet_size AM (Int16Array (repeat 0%Z (CHUNK_SIZE * CHANNELS))))
    as (p & Hp & _ & _ & Hc).
  - simpl. auto.
  - cbn [size]. rewrite repeat_length. vm_compute. lia.
  - exists p. split; [exact Hp|]. apply Hc. apply repeat_length.
Defined.

(** Without modulation the frames that the client plays are the samples
    that the server recorded: for a block of valid int16 samples, an even
    number of them, the packet of the server is decoded by the client to
    frames that laid end to end are the block. *)
Theorem none_end_to_end (x : list Z) :
  Forall is_int16 x ->
  Nat.even (length x) = true ->
  exists p f,
    packet NO_MOD (Int16Array x) = Returns p
    /\ frames NO_MOD p = Returns f
    /\ 2 * length f = length x
    /\ concat f = x.
Proof.
  intros Hx Hev.
  destruct (output_even (mk NO_MOD (Int16Array x)) Hev)
    as (f & Hf & Hl & _ & Hc).
  exists (tobytes x), f. split; [reflexivity|].
  split; [|split; [exact Hl|exact Hc]].
  unfold frames, init. cbn [set_signal].
  change (check_modulation NO_MOD) with (Returns tt).
  rewrite frombuffer_tobytes by exact Hx.
  exact Hf.
Qed.

Lemma none_end_to_end_witness :
  exists p f,
    packet NO_MOD (Int16Array [-32768; 32767; 0; -1]%Z) = Returns p
    /\ frames NO_MOD p = Returns f
    /\ 2 * length f = 4
    /\ concat f = [-32768; 32767; 0; -1]%Z.
Proof.
  apply (none_end_to_end [-32768; 32767; 0; -1]%Z).
  - repeat constructor; unfold is_int16; lia.
  - reflexivity.
Defined.

(** What the client plays for one package: with a known modulation, a
    package of 4 k bytes (k > 0) gives k frames of two samples; a package
    whose length is not a multiple of 4 - a packet that arrived cut -
    raises [ValueError]. *)
Theorem frames_of_package (tag : string) (package : list Z) :
  In tag modulations ->
  (forall k, 0 < k -> length package = 4 * k ->
             exists f, frames tag package = Returns f
                       /\ length f = k
                       /\ Forall (fun row => length row = 2) f)
  /\ (length package mod 4 <> 0 -> frames tag package = Raises ValueError).
Proof.
  intros Hm. split.
  - intros k Hk Hlen.
    destruct (init_bytes_even tag package Hm) as (xs & Hinit & Hl & _).
    { apply Nat.even_spec. exists (2 * k). lia. }
    unfold frames. rewrite Hinit.
    assert (Hout : forall m, size (signal m) = length xs ->
              exists f, output m = Returns f /\ length f = k
                        /\ Forall (fun row => length row = 2) f).
    { intros m Hsz. destruct (output_even m) as (f & Hf & Hlf & Hw & _).
      - rewrite Hsz. apply Nat.even_spec. exists k. lia.
      - exists f. split; [exact Hf|]. split; [lia|exact Hw]. }
    destruct (String.eqb tag NO_MOD); [now apply Hout|].
    destruct (demodulate_keeps (mk tag (Int16Array xs)) Hm) as [Hs Ht].
    destruct (lowpass_returns (demodulate (mk tag (Int16Array xs))))
      as (m' & Hm' & Hs' & _).
    { rewrite Hs. cbn [signal size]. lia. }
    rewrite Hm'. apply Hout. rewrite Hs', Hs. reflexivity.
  - intros Hmod. unfold frames.
    destruct (Nat.odd (length package)) eqn:Hodd.
    + now rewrite (init_bytes_odd tag package Hm Hodd).
    + destruct (init_bytes_even tag package Hm) as (xs & Hinit & Hl & _).
      { now rewrite <- Nat.negb_odd, Hodd. }
      rewrite Hinit.
      assert (Hxs : Nat.odd (length xs) = true).
      { destruct (Nat.odd (length xs)) eqn:E; [reflexivity|].
        exfalso. apply Hmod.
        assert (Nat.even (length xs) = true)
          by now rewrite <- Nat.negb_odd, E.
        apply Nat.even_spec in H as [j Hj].
        rewrite <- Hl, Hj.
        replace (2 * (2 * j)) with (j * 4) by lia.
        apply Nat.Div0.mod_mul. }
      destruct (String.eqb tag NO_MOD); [now apply output_odd|].
      destruct (demodulate_keeps (mk tag (Int16Array xs)) Hm) as [Hs Ht].
      destruct (lowpass_returns (demodulate (mk tag (Int16Array xs))))
        as (m' & Hm' & Hs' & _).
      { rewrite Hs. cbn [signal size].
        destruct xs; [discriminate|cbn [length]; lia]. }
      rewrite Hm'. apply output_odd. now rewrite Hs', Hs.
Qed.

Lemma frames_of_package_witness :
  (exists f, frames AM [1; 0; 2; 0]%Z = Returns f
             /\ length f = 1
             /\ Forall (fun row => length row = 2) f)
  /\ frames AM [1; 0; 2; 0; 3; 0]%Z = Raises ValueError.
Proof.
  split.
  - apply (proj1 (frames_of_package AM [1; 0; 2; 0]%Z
                    (or_introl eq_refl)) 1); [lia|reflexivity].
  - apply (proj2 (frames_of_package AM [1; 0; 2; 0; 3; 0]%Z
                    (or_introl eq_refl))).
    cbn. lia.
Defined.

End LoopsMore.

(** * Further properties of the socket sessions *)

Section SendMore.

Import Net Py Node.

(** A write on a connection leaves every other socket alone. *)
Lemma sock_send_other (s x : nat) (data : list Z) (w : world) :
  x <> s -> socks (snd (sock_send s data w)) !! x = socks w !! x.
Proof.
  intros Hne. unfold sock_send.
  destruct (live s w) as [k|]; [|reflexivity].
  destruct (sk_tx k) as [|[n|e] tx]; cbn [snd emit set_sock socks];
    now rewrite lookup_insert_ne by congruence.
Qed.

Lemma sendall_loop_other (s x : nat) (tx : list write_ev) :
  x <> s ->
  forall (data : list Z) (w : world),
    socks (snd (sendall_loop s tx data w)) !! x = socks w !! x.
Proof.
  intros Hne. induction tx as [|ev tx IH]; intros data w; cbn [sendall_loop];
    pose proof (sock_send_other s x data w Hne) as Hs;
    destruct (sock_send s data w) as [[n|e|] w']; cbn [snd] in *;
    try exact Hs.
  destruct (skipn n data); [exact Hs|]. now rewrite IH.
Qed.

Lemma sock_sendall_other (s x : nat) (data : list Z) (w : world) :
  x <> s -> socks (snd (sock_sendall s data w)) !! x = socks w !! x.
Proof.
  intros Hne. unfold sock_sendall.
  destruct (live s w) as [k|]; [|reflexivity].
  now apply sendall_loop_other.
Qed.

(** One write: a prefix of the data goes on the wire, and its length is
    returned. *)
Lemma sock_send_accepted (s : nat) (data : list Z) (w : world) (k : sock) :
  live s w = Some k -> accepts_write k = true ->
  exists n k',
    sock_send s data w
    = (Returns n, emit (EvWrite s (Returns n)) (set_sock s k' w))
    /\ n <= length data
    /\ sk_wire k' = sk_wire k ++ firstn n data
    /\ sk_tx k' = tl (sk_tx k)
    /\ sk_rx k' = sk_rx k
    /\ sk_closed k' = false.
Proof.
  intros Hl Hw. unfold sock_send. rewrite Hl.
  apply live_Some in Hl as [_ Hc].
  unfold accepts_write in Hw.
  destruct (sk_tx k) as [|[n|e] tx] eqn:E; [| |discriminate].
  - eexists _, _. split; [reflexivity|].
    cbn [sk_wire sk_tx sk_rx sk_closed tl].
    rewrite firstn_all. repeat split; auto.
  - eexists _, _. split; [reflexivity|].
    cbn [sk_wire sk_tx sk_rx sk_closed tl].
    split; [rewrite length_firstn; lia|]. split; [|repeat split; auto].
    f_equal. destruct (Nat.le_gt_cases n (length data)) as [Hle|Hgt].
    + now rewrite length_firstn, Nat.min_l by exact Hle.
    + rewrite (firstn_all2 data) by lia. now rewrite firstn_all.
Qed.

(** [sendall] puts the whole buffer on the wire when no write is
    refused. *)
Lemma sendall_loop_delivers (s : nat) (tx : list write_ev) :
  all_accepted tx ->
  forall (data : list Z) (w : world) (k : sock),
    live s w = Some k -> sk_tx k = tx ->
    exists w' k',
      sendall_loop s tx data w = (Returns tt, w')
      /\ live s w' = Some k'
      /\ sk_wire k' = sk_wire k ++ data
      /\ sk_rx k' = sk_rx k.
Proof.
  induction 1 as [|ev tx [n0 ->] Hall IH]; intros data w k Hl Htx;
    cbn [sendall_loop].
  - destruct (sock_send_accepted s data w k Hl) as
      (n & k' & Hs & Hn & Hw & _ & Hrx & Hc).
    { unfold accepts_write. now rewrite Htx. }
    rewrite Hs. eexists _, k'. split; [reflexivity|].
    split; [rewrite live_emit; now apply live_set_sock_eq|].
    split; [|exact Hrx].
    unfold sock_send in Hs. rewrite Hl, Htx in Hs.
    injection Hs as <- _. now rewrite Hw, firstn_all.
  - destruct (sock_send_accepted s data w k Hl) as
      (n & k' & Hs & Hn & Hw & Htx' & Hrx & Hc).
    { unfold accepts_write. now rewrite Htx. }
    rewrite Hs. rewrite Htx in Htx'. cbn [tl] in Htx'.
    assert (Hl' : live s (emit (EvWrite s (Returns n)) (set_sock s k' w))
                  = Some k')
      by (rewrite live_emit; now apply live_set_sock_eq).
    destruct (skipn n data) as [|z rest] eqn:E.
    + eexists _, k'. split; [reflexivity|]. split; [exact Hl'|].
      split; [|exact Hrx]. rewrite Hw. f_equal.
      apply firstn_all2.
      pose proof (length_skipn n data) as Hsk. rewrite E in Hsk.
      cbn [length] in Hsk. lia.
    + destruct (IH (z :: rest) _ k' Hl' Htx') as (w' & k'' & Hrun & Hl'' & Hw'' & Hrx'').
      exists w', k''. split; [exact Hrun|]. split; [exact Hl''|].
      split; [|congruence].
      rewrite Hw'', Hw, <- app_assoc, <- E. now rewrite firstn_skipn.
Qed.

Lemma server_open_registered (s : Server.t) (w : world) (l c : nat)
    (d : gmap nat (gmap string string)) (r : gmap string string)
    (package : list Z) (ensure : bool) :
  socket (Server.base s) = Some l -> Server.clients s = Some d ->
  d !! c = Some r ->
  Server.send c package ensure (s, w)
  = try_except
      (if ensure
       then bind (sys (sock_send c package)) (fun n => ret (Some n))
       else bind (sys (sock_sendall c package)) (fun _ => ret None))
      (fun e =>
         if is_OSError e then raise ClientDisconnectedError else raise e)
      (s, w).
Proof.
  intros Hs Hd Hr. unfold Server.send. cbn [bind].
  now rewrite (check_client_ok s w l c d r Hs Hd Hr).
Qed.

Lemma client_open (c : Client.t) (w : world) (l : nat)
    (package : list Z) (ensure : bool) :
  socket (Client.base c) = Some l ->
  Client.send package ensure (c, w)
  = (if ensure
     then bind (sys (sock_send l package)) (fun n => ret (Some n))
     else bind (sys (sock_sendall l package)) (fun _ => ret None)) (c, w).
Proof.
  intros Hc. destruct c as [[sk lg] nm md cl]. cbn in Hc. subst sk.
  destruct ensure; reflexivity.
Qed.

(** One write, with the number of bytes that the kernel takes of it. *)
Lemma sock_send_written (x : nat) (data : list Z) (w : world) (k : sock) :
  live x w = Some k -> accepts_write k = true ->
  exists k',
    sock_send x data w
    = (Returns (written k data),
       emit (EvWrite x (Returns (written k data))) (set_sock x k' w))
    /\ sk_wire k' = sk_wire k ++ firstn (written k data) data
    /\ sk_rx k' = sk_rx k
    /\ sk_closed k' = false.
Proof.
  intros Hl Hw. unfold sock_send, written. rewrite Hl.
  apply live_Some in Hl as [_ Hc]. unfold accepts_write in Hw.
  destruct (sk_tx k) as [|[m|e] tx]; [| |discriminate];
    eexists; (split; [reflexivity|]); cbn [sk_wire sk_rx sk_closed];
    (split; [|now split]); f_equal.
  - now rewrite firstn_all.
  - destruct (Nat.le_gt_cases m (length data)) as [Hle|Hgt].
    + now rewrite length_firstn, Nat.min_l by exact Hle.
    + rewrite (firstn_all2 data) by lia. now rewrite firstn_all.
Qed.

(** What [send] puts on the wire when the kernel refuses no write.  With
    [ensure=False] the whole package is written and [None] is returned.
    With [ensure=True] there is one write and no more: the trace grows by
    a single event, the number returned is the number of bytes that the
    kernel took of that write - the whole package when the kernel takes
    everything, the first [m] bytes at most when it takes [m] - and
    exactly that prefix of the package is on the wire.  This holds for
    [Server.send] to a registered client and for [Client.send]. *)
Theorem send_delivery (s : Server.t) (c : Client.t) (w : world)
    (l x : nat) (d : gmap nat (gmap string string))
    (r : gmap string string) (k : sock) (package : list Z) :
  socket (Server.base s) = Some l ->
  Server.clients s = Some d ->
  d !! x = Some r ->
  socket (Client.base c) = Some x ->
  live x w = Some k ->
  all_accepted (sk_tx k) ->
  let n := written k package in
  (exists w' k',
      Server.send x package false (s, w) = (Returns None, (s, w'))
      /\ live x w' = Some k' /\ sk_wire k' = sk_wire k ++ package)
  /\ (exists w' k',
         Client.send package false (c, w) = (Returns None, (c, w'))
         /\ live x w' = Some k' /\ sk_wire k' = sk_wire k ++ package)
  /\ (exists w' k',
         Server.send x package true (s, w) = (Returns (Some n), (s, w'))
         /\ trace w' = trace w ++ [EvWrite x (Returns n)]
         /\ live x w' = Some k'
         /\ sk_wire k' = sk_wire k ++ firstn n package)
  /\ (exists w' k',
         Client.send package true (c, w) = (Returns (Some n), (c, w'))
         /\ trace w' = trace w ++ [EvWrite x (Returns n)]
         /\ live x w' = Some k'
         /\ sk_wire k' = sk_wire k ++ firstn n package)
  /\ (sk_tx k = [] -> n = length package)
  /\ (forall m tx, sk_tx k = Accepts m :: tx ->
                   n = Nat.min m (length package)).
Proof.
  intros Hs Hd Hr Hc Hl Hall. cbv zeta.
  rewrite !(server_open_registered s w l x d r _ _ Hs Hd Hr).
  rewrite !(client_open c w x _ _ Hc).
  destruct (sendall_loop_delivers x (sk_tx k) Hall package w k Hl eq_refl)
    as (w' & k' & Hrun & Hl' & Hw & _).
  assert (Hacc : accepts_write k = true).
  { unfold accepts_write. destruct Hall as [|ev tx [n ->] _]; reflexivity. }
  destruct (sock_send_written x package w k Hl Hacc)
    as (k1 & Hsend & Hw1 & _ & Hc1).
  assert (Hl1 : live x (emit (EvWrite x (Returns (written k package)))
                          (set_sock x k1 w))
                = Some k1)
    by (rewrite live_emit; now apply live_set_sock_eq).
  cbn [try_except bind sys ret fst snd].
  unfold sock_sendall. rewrite Hl, Hrun, Hsend.
  split; [now exists w', k'|]. split; [now exists w', k'|].
  split; [eexists _, k1; split; [reflexivity|]; now repeat split|].
  split; [eexists _, k1; split; [reflexivity|]; now repeat split|].
  unfold written. split.
  - now intros ->.
  - intros m tx ->. apply length_firstn.
Qed.

Lemma send_delivery_witness :
  let w := Scenario.world_of [] [] [Accepts 1; Accepts 0; Accepts 5] in
  let k := Scenario.conn [] [Accepts 1; Accepts 0; Accepts 5] in
  let package := [10; 20; 30]%Z in
  (exists w' k',
      Server.send 7 package false (Scenario.server_with_client, w)
      = (Returns None, (Scenario.server_with_client, w'))
      /\ live 7 w' = Some k' /\ sk_wire k' = sk_wire k ++ package)
  /\ (exists w' k',
         Client.send package false (Scenario.client, w)
         = (Returns None, (Scenario.client, w'))
         /\ live 7 w' = Some k' /\ sk_wire k' = sk_wire k ++ package)
  /\ (exists w' k',
         Server.send 7 package true (Scenario.server_with_client, w)
         = (Returns (Some 1), (Scenario.server_with_client, w'))
         /\ trace w' = trace w ++ [EvWrite 7 (Returns 1)]
         /\ live 7 w' = Some k'
         /\ sk_wire k' = sk_wire k ++ firstn 1 package)
  /\ (exists w' k',
         Client.send package true (Scenario.client, w)
         = (Returns (Some 1), (Scenario.client, w'))
         /\ trace w' = trace w ++ [EvWrite 7 (Returns 1)]
         /\ live 7 w' = Some k'
         /\ sk_wire k' = sk_wire k ++ firstn 1 package)
  /\ (sk_tx k = [] -> 1 = length package)
  /\ (forall m tx, sk_tx k = Accepts m :: tx ->
                   1 = Nat.min m (length package)).
Proof.
  apply (send_delivery Scenario.server_with_client Scenario.client
           (Scenario.world_of [] [] [Accepts 1; Accepts 0; Accepts 5])
           1 7
           {[ 7 := {[ "color" := RED; "name" := "bob";
                      "modulation" := AM ]} ]}
           {[ "color" := RED; "name" := "bob"; "modulation" := AM ]}
           (Scenario.conn [] [Accepts 1; Accepts 0; Accepts 5])
           [10; 20; 30]%Z).
  - reflexivity.
  - reflexivity.
  - vm_compute. reflexivity.
  - reflexivity.
  - reflexivity.
  - repeat constructor; eexists; reflexivity.
Defined.

(** A write that fails.  [Server.send] turns a broken pipe, a reset or
    any other [OSError] into [ClientDisconnectedError], with either value
    of [ensure], and does the same when the socket of the client is
    already closed; [Client.send] lets the error of the socket through as
    it is. *)
Theorem send_failure (s : Server.t) (c : Client.t) (w : world)
    (l x : nat) (d : gmap nat (gmap string string))
    (r : gmap string string) (package : list Z) (ensure : bool) :
  socket (Server.base s) = Some l ->
  Server.clients s = Some d ->
  d !! x = Some r ->
  socket (Client.base c) = Some x ->
  (forall k e tx,
      live x w = Some k -> sk_tx k = WriteFails e :: tx ->
      is_OSError e = true ->
      fst (Server.send x package ensure (s, w))
      = Raises ClientDisconnectedError
      /\ fst (Client.send package ensure (c, w)) = Raises e)
  /\ (live x w = None ->
      fst (Server.send x package ensure (s, w))
      = Raises ClientDisconnectedError).
Proof.
  intros Hs Hd Hr Hc.
  rewrite (server_open_registered s w l x d r _ _ Hs Hd Hr).
  rewrite (client_open c w x _ _ Hc).
  split.
  - intros k e tx Hl Htx He.
    assert (Hsend : exists w1, sock_send x package w = (Raises e, w1))
      by (unfold sock_send; rewrite Hl, Htx; eauto).
    destruct Hsend as [w1 Hsend].
    assert (Hall : sock_sendall x package w = (Raises e, w1)).
    { unfold sock_sendall. rewrite Hl, Htx. cbn [sendall_loop].
      now rewrite Hsend. }
    cbn [try_except bind sys ret fst snd].
    destruct ensure; cbn -[is_OSError sock_send sock_sendall];
      rewrite ?Hsend, ?Hall; cbn -[is_OSError]; now rewrite He.
  - intros Hl.
    destruct ensure; cbn -[is_OSError sock_send sock_sendall];
      unfold sock_send, sock_sendall; rewrite Hl; reflexivity.
Qed.

Lemma send_failure_witness :
  let w := Scenario.world_of [] [] [WriteFails BrokenPipeError] in
  fst (Server.send 7 [1; 2]%Z true (Scenario.server_with_client, w))
  = Raises ClientDisconnectedError
  /\ fst (Client.send [1; 2]%Z true (Scenario.client, w))
     = Raises BrokenPipeError.
Proof.
  apply (proj1 (send_failure Scenario.server_with_client Scenario.client
                  (Scenario.world_of [] [] [WriteFails BrokenPipeError])
                  1 7
                  {[ 7 := {[ "color" := RED; "name" := "bob";
                             "modulation" := AM ]} ]}
                  {[ "color" := RED; "name" := "bob"; "modulation" := AM ]}
                  [1; 2]%Z true eq_refl eq_refl eq_refl eq_refl)
           (Scenario.conn [] [WriteFails BrokenPipeError])
           BrokenPipeError []); reflexivity.
Defined.

(** [recv] never returns more than [PACKAGE_SIZE] bytes, on the server
    and on the client. *)
Theorem recv_bounded (s : Server.t) (c : Client.t) (w : world) (x : nat)
    (b : list Z) :
  (forall st, Server.recv x (s, w) = (Returns b, st) ->
              length b <= PACKAGE_SIZE)
  /\ (forall st, Client.recv (c, w) = (Returns b, st) ->
                 length b <= PACKAGE_SIZE).
Proof.
  assert (H : forall y w', fst (sock_recv y PACKAGE_SIZE w') = Returns b ->
                           length b <= PACKAGE_SIZE).
  { intros y w' Hr. unfold sock_recv in Hr.
    destruct (live y w') as [k|]; [|discriminate].
    destruct (sk_rx k) as [|[b'|e] rx]; cbn [fst] in Hr; try discriminate;
      injection Hr as <-.
    - cbn [length]. lia.
    - rewrite length_firstn. lia. }
  split; intros st Hrun.
  - apply (H x w). unfold Server.recv in Hrun. cbn [sys fst snd] in Hrun.
    destruct (sock_recv x PACKAGE_SIZE w) as [o w']. cbn [fst].
    now injection Hrun.
  - destruct c as [[[sk|] lg] nm md cl]; [|discriminate].
    apply (H sk w). unfold Client.recv in Hrun.
    cbn -[sock_recv PACKAGE_SIZE] in Hrun.
    destruct (sock_recv sk PACKAGE_SIZE w) as [o w']. cbn [fst].
    now injection Hrun.
Qed.

Lemma recv_bounded_witness :
  length (firstn PACKAGE_SIZE (repeat 9%Z 5000)) <= PACKAGE_SIZE.
Proof.
  apply (proj1 (recv_bounded (Server.init GREEN) Scenario.client
                  (Scenario.world_of [] [Data (repeat 9%Z 5000)] []) 7
                  (firstn PACKAGE_SIZE (repeat 9%Z 5000)))
           (Server.init GREEN,
            snd (sock_recv 7 PACKAGE_SIZE
                   (Scenario.world_of [] [Data (repeat 9%Z 5000)] [])))).
  vm_compute. reflexivity.
Defined.

End SendMore.

Section RegistryMore.

Import Net Py Node Server.

(** The palette is handed out in a cycle of six: [next_color] returns
    the color of the current position and moves on by one; positions six
    apart have the same color (the seventh client gets the color of the
    first), every color is one of the palette, and within one turn of the
    cycle no color comes twice. *)
Theorem color_cycle (s : Server.t) (w : world) (n : nat) :
  next_color (s, w)
  = (Returns (color_of (client_colors s)),
     (mk (base s) (color s) (S (client_colors s)) (clients s) (port s), w))
  /\ color_of (n + 6) = color_of n
  /\ In (color_of n) COLORS
  /\ (forall i j, i < 6 -> j < 6 -> color_of i = color_of j -> i = j).
Proof.
  split; [reflexivity|]. unfold color_of. change (length COLORS) with 6.
  split; [|split].
  - replace (n + 6) with (n + 1 * 6) by lia.
    now rewrite Nat.Div0.mod_add.
  - apply nth_In. change (length COLORS) with 6.
    apply Nat.mod_upper_bound. lia.
  - intros i j Hi Hj.
    rewrite !Nat.mod_small by assumption.
    do 6 (destruct i as [|i]; [do 6 (destruct j as [|j];
            [first [reflexivity | discriminate]|]); lia|]).
    lia.
Qed.

Lemma get_field_ok (s : Server.t) (w : world) (l c : nat)
    (d : gmap nat (gmap string string)) (r : gmap string string)
    (key v : string) :
  socket (base s) = Some l -> clients s = Some d -> d !! c = Some r ->
  r !! key = Some v ->
  get_field key c (s, w) = (Returns v, (s, w)).
Proof.
  intros Hs Hd Hr Hv. unfold get_field. cbn [bind].
  rewrite (check_client_ok s w l c d r Hs Hd Hr).
  unfold the_clients. step. rewrite Hd. step. now rewrite Hr, Hv.
Qed.

Lemma get_field_missing (s : Server.t) (w : world) (l c : nat)
    (d : gmap nat (gmap string string)) (r : gmap string string)
    (key : string) :
  socket (base s) = Some l -> clients s = Some d -> d !! c = Some r ->
  r !! key = None ->
  get_field key c (s, w) = (Raises KeyError, (s, w)).
Proof.
  intros Hs Hd Hr Hv. unfold get_field. cbn [bind].
  rewrite (check_client_ok s w l c d r Hs Hd Hr).
  unfold the_clients. step. rewrite Hd. step. now rewrite Hr, Hv.
Qed.

(** After a handshake that went through - the name and the modulation
    arrived as well-formed UTF-8, the bytes [nm] decoding to [name] and
    the bytes [md] to [modn] - the registry answers with what was
    exchanged: [get_name] gives the name received, [get_color] the color
    sent, [get_modulation] the modulation received; none of them touches
    a socket. *)
Theorem getters_after_hello
    (s : Server.t) (w : world) (l c polls : nat)
    (d : gmap nat (gmap string string)) (k kc : sock)
    (rest : list (nat * nat)) (nm md : list Z) (rx : list recv_ev)
    (name modn : string) :
  socket (base s) = Some l ->
  clients s = Some d ->
  live l w = Some k ->
  sk_pending k = (polls, c) :: rest ->
  c <> l ->
  live c w = Some kc ->
  sk_rx kc = Data nm :: Data md :: rx ->
  length nm <= PACKAGE_SIZE ->
  length md <= PACKAGE_SIZE ->
  Str.decode nm = Some name ->
  Str.decode md = Some modn ->
  accepts_write kc = true ->
  let st := snd (hello (s, w)) in
  get_name c st = (Returns name, st)
  /\ get_color c st = (Returns (color_of (client_colors s)), st)
  /\ get_modulation c st = (Returns modn, st).
Proof.
  intros Hs Hd Hl Hp Hne Hc Hrx Hnm Hmd Hdn Hdm Htx.
  destruct (hello_handshake s w l c polls d k kc rest nm md rx name modn
              Hs Hd Hl Hp Hne Hc Hrx Hnm Hmd Hdn Hdm Htx)
    as (w' & n & kc' & Hrun & _).
  cbv zeta. rewrite Hrun. cbn [snd].
  unfold get_name, get_color, get_modulation.
  repeat split;
    (eapply get_field_ok;
     [exact Hs | reflexivity | apply lookup_insert_eq |]).
  - rewrite lookup_insert_ne by discriminate. apply lookup_insert_eq.
  - rewrite !lookup_insert_ne by discriminate. apply lookup_singleton_eq.
  - apply lookup_insert_eq.
Qed.

Lemma getters_after_hello_witness :
  let w := Scenario.world_of [(2, 7)]
             [Data (Str.encode "bob"); Data (Str.encode "am-sc")] [] in
  let st := snd (hello (Scenario.server, w)) in
  get_name 7 st = (Returns "bob", st)
  /\ get_color 7 st = (Returns RED, st)
  /\ get_modulation 7 st = (Returns "am-sc", st).
Proof.
  apply (getters_after_hello Scenario.server
           (Scenario.world_of [(2, 7)]
              [Data (Str.encode "bob"); Data (Str.encode "am-sc")] [])
           1 7 2 ∅ (Scenario.listener [(2, 7)])
           (Scenario.conn
              [Data (Str.encode "bob"); Data (Str.encode "am-sc")] [])
           [] (Str.encode "bob") (Str.encode "am-sc") [] "bob" "am-sc").
  - reflexivity.
  - reflexivity.
  - reflexivity.
  - reflexivity.
  - lia.
  - reflexivity.
  - reflexivity.
  - vm_compute. lia.
  - vm_compute. lia.
  - reflexivity.
  - reflexivity.
  - reflexivity.
Defined.

Lemma check_client_unknown (s : Server.t) (w : world) (l c : nat)
    (d : gmap nat (gmap string string)) :
  socket (base s) = Some l -> clients s = Some d -> d !! c = None ->
  check_client c (s, w) = (Raises InvalidClientError, (s, w)).
Proof.
  intros Hs Hd Hr.
  unfold check_client, check_connection, is_open, the_clients. step.
  rewrite Hs. step. rewrite Hd. step. now rewrite Hr.
Qed.

(** A client that is not in the registry of an open server is refused
    with [InvalidClientError] by the getters, by [send], [send_str] and
    [bye], before any socket is touched: the server and the sockets are as
    before. *)
Theorem unknown_client_refused (s : Server.t) (w : world) (l c : nat)
    (d : gmap nat (gmap string string)) (package : list Z) (str : string)
    (ensure : bool) :
  socket (base s) = Some l ->
  clients s = Some d ->
  d !! c = None ->
  get_name c (s, w) = (Raises InvalidClientError, (s, w))
  /\ get_color c (s, w) = (Raises InvalidClientError, (s, w))
  /\ get_modulation c (s, w) = (Raises InvalidClientError, (s, w))
  /\ send c package ensure (s, w) = (Raises InvalidClientError, (s, w))
  /\ send_str c str ensure (s, w) = (Raises InvalidClientError, (s, w))
  /\ bye c (s, w) = (Raises InvalidClientError, (s, w)).
Proof.
  intros Hs Hd Hr.
  pose proof (check_client_unknown s w l c d Hs Hd Hr) as Hck.
  unfold get_name, get_color, get_modulation, get_field, send, send_str, bye.
  cbn [bind]. rewrite Hck. repeat split; reflexivity.
Qed.

Lemma unknown_client_refused_witness :
  let s := Scenario.server_with_client in
  let w := Scenario.world_of [] [Data [1]%Z] [] in
  get_name 9 (s, w) = (Raises InvalidClientError, (s, w))
  /\ get_color 9 (s, w) = (Raises InvalidClientError, (s, w))
  /\ get_modulation 9 (s, w) = (Raises InvalidClientError, (s, w))
  /\ send 9 [1; 2]%Z true (s, w) = (Raises InvalidClientError, (s, w))
  /\ send_str 9 "hi" true (s, w) = (Raises InvalidClientError, (s, w))
  /\ bye 9 (s, w) = (Raises InvalidClientError, (s, w)).
Proof.
  apply (unknown_client_refused Scenario.server_with_client
           (Scenario.world_of [] [Data [1]%Z] []) 1 9
           {[ 7 := {[ "color" := RED; "name" := "bob";
                      "modulation" := AM ]} ]}
           [1; 2]%Z "hi").
  - reflexivity.
  - reflexivity.
  - vm_compute. reflexivity.
Defined.

(** On a closed server every operation that starts with the connection
    check raises [SocketError] and changes nothing: [hello], [bye], the
    getters, [send_str], [broadcast] and [log]; no color is taken from the
    palette. *)
Theorem closed_server_refuses (s : Server.t) (w : world) (c : nat)
    (package : list Z) (str : string) (black_list : list nat)
    (ensure : bool) (message : option string) :
  socket (base s) = None ->
  hello (s, w) = (Raises SocketError, (s, w))
  /\ bye c (s, w) = (Raises SocketError, (s, w))
  /\ get_name c (s, w) = (Raises SocketError, (s, w))
  /\ get_color c (s, w) = (Raises SocketError, (s, w))
  /\ get_modulation c (s, w) = (Raises SocketError, (s, w))
  /\ send_str c str ensure (s, w) = (Raises SocketError, (s, w))
  /\ broadcast package black_list ensure (s, w) = (Raises SocketError, (s, w))
  /\ log message (s, w) = (Raises SocketError, (s, w)).
Proof.
  intros Hs. destruct s as [[sk lg] col pos cl pt]. cbn in Hs. subst sk.
  repeat split; reflexivity.
Qed.

Lemma closed_server_refuses_witness :
  let s := Server.init GREEN in
  let w := Scenario.world_of [(0, 7)] [Data [1]%Z] [] in
  hello (s, w) = (Raises SocketError, (s, w))
  /\ bye 7 (s, w) = (Raises SocketError, (s, w))
  /\ get_name 7 (s, w) = (Raises SocketError, (s, w))
  /\ get_color 7 (s, w) = (Raises SocketError, (s, w))
  /\ get_modulation 7 (s, w) = (Raises SocketError, (s, w))
  /\ send_str 7 "hi" true (s, w) = (Raises SocketError, (s, w))
  /\ broadcast [1]%Z [] true (s, w) = (Raises SocketError, (s, w))
  /\ log (Some "x") (s, w) = (Raises SocketError, (s, w)).
Proof.
  apply (closed_server_refuses (Server.init GREEN)
           (Scenario.world_of [(0, 7)] [Data [1]%Z] []) 7 [1]%Z "hi" []
           true (Some "x")).
  reflexivity.
Defined.

End RegistryMore.

Section HelloMore.

Import Net Py Node Server.

Lemma sock_recv_fails (s n : nat) (w : world) (k : sock) (e : exn)
    (rx : list recv_ev) :
  live s w = Some k -> sk_rx k = RecvFails e :: rx ->
  sock_recv s n w
  = (Raises e,
     emit (EvRecv s (Raises e))
          (set_sock s (mkSock (sk_closed k) (sk_backlog k) (sk_pending k)
                              rx (sk_tx k) (sk_wire k)) w)).
Proof. intros Hl Hrx. unfold sock_recv. now rewrite Hl, Hrx. Qed.

(** [hello] up to the creation of the record: the state in which the
    handshake starts. *)
Lemma hello_accepts (s : Server.t) (w : world) (l c polls : nat)
    (d : gmap nat (gmap string string)) (k : sock)
    (rest : list (nat * nat)) :
  socket (base s) = Some l ->
  clients s = Some d ->
  live l w = Some k ->
  sk_pending k = (polls, c) :: rest ->
  hello (s, w)
  = handshake c (color_of (client_colors s))
      (mk (base s) (color s) (S (client_colors s))
          (Some (<[c := {["color" := color_of (client_colors s)]}]> d))
          (port s),
       mkWorld
         (<[l := mkSock (sk_closed k) (sk_backlog k) rest
                        (sk_rx k) (sk_tx k) (sk_wire k)]> (socks w))
         (next_id w) (ports_in_use w)
         (trace w ++ repeat (EvSelect l false) polls
                  ++ [EvSelect l true; EvAccept l c])).
Proof.
  intros Hs Hd Hl Hp.
  destruct s as [[sk lg] col pos cl pt]. cbn in Hs, Hd. subst sk cl.
  change hello with
    (bind (@check_connection Server.t _) (fun _ =>
     bind the_socket (fun l =>
     bind (fun st =>
             match live l (snd st) with
             | Some k =>
                 match sk_pending k with
                 | (polls, _) :: _ => wait_accept l polls st
                 | [] => (Hangs, st)
                 end
             | None => wait_accept l 0 st
             end) (fun client =>
     bind next_color (fun color =>
     bind the_clients (fun d =>
     bind (set_clients (Some (<[client := {["color" := color]}]> d)))
          (fun _ => handshake client color))))))).
  cbn -[color_of wait_accept live lookup insert singletonM handshake].
  rewrite Hl, Hp, (wait_accept_ready _ _ _ _ _ _ _ Hl Hp).
  reflexivity.
Qed.

(** How [hello] fails once a connection is accepted.  If the client
    resets the connection before its name arrives, [hello] raises that
    very error, unconverted, and the record of the client holds a color
    and no name.  If the name arrives, well-formed UTF-8 that decodes to
    [name], and the write of the color is refused with an [OSError],
    [hello] raises [ClientDisconnectedError], and the record holds color
    and name and no modulation.  If the bytes that arrive as the name are
    not UTF-8, [hello] raises [UnicodeDecodeError], and the record holds
    a color and no name.  In each case a color of the palette is used up
    and the client stays in the registry: the getter of a missing field
    raises [KeyError]. *)
Theorem hello_failures (s : Server.t) (w : world) (l c polls : nat)
    (d : gmap nat (gmap string string)) (k kc : sock)
    (rest : list (nat * nat)) (e : exn) :
  socket (base s) = Some l ->
  clients s = Some d ->
  live l w = Some k ->
  sk_pending k = (polls, c) :: rest ->
  c <> l ->
  live c w = Some kc ->
  let r := hello (s, w) in
  let st := snd r in
  (forall rx,
      sk_rx kc = RecvFails e :: rx ->
      fst r = Raises e
      /\ client_colors (fst st) = S (client_colors s)
      /\ get_color c st = (Returns (color_of (client_colors s)), st)
      /\ get_name c st = (Raises KeyError, st))
  /\ (forall nm name rx tx,
         sk_rx kc = Data nm :: rx -> length nm <= PACKAGE_SIZE ->
         Str.decode nm = Some name ->
         sk_tx kc = WriteFails e :: tx -> is_OSError e = true ->
         fst r = Raises ClientDisconnectedError
         /\ client_colors (fst st) = S (client_colors s)
         /\ get_name c st = (Returns name, st)
         /\ get_modulation c st = (Raises KeyError, st))
  /\ (forall nm rx,
         sk_rx kc = Data nm :: rx -> length nm <= PACKAGE_SIZE ->
         Str.decode nm = None ->
         fst r = Raises UnicodeDecodeError
         /\ client_colors (fst st) = S (client_colors s)
         /\ get_color c st = (Returns (color_of (client_colors s)), st)
         /\ get_name c st = (Raises KeyError, st)).
Proof.
  intros Hs Hd Hl Hp Hne Hc. cbv zeta.
  rewrite (hello_accepts s w l c polls d k rest Hs Hd Hl Hp).
  set (s1 := mk _ _ _ _ _). set (w1 := mkWorld _ _ _ _).
  assert (Hc1 : live c w1 = Some kc).
  { apply live_Some in Hc as [Hc Hcl]. apply live_Some. split; [|easy].
    unfold w1. cbn [socks]. now rewrite lookup_insert_ne by congruence. }
  assert (Hreset : forall rx, sk_rx kc = RecvFails e :: rx ->
            exists w', handshake c (color_of (client_colors s)) (s1, w1)
                       = (Raises e, (s1, w'))).
  { intros rx Hrx. unfold handshake, recv_str, recv. step.
    rewrite (sock_recv_fails _ _ _ _ _ _ Hc1 Hrx). eauto. }
  assert (Hrefused : forall nm name rx tx,
            sk_rx kc = Data nm :: rx -> length nm <= PACKAGE_SIZE ->
            Str.decode nm = Some name ->
            sk_tx kc = WriteFails e :: tx -> is_OSError e = true ->
            exists w',
              handshake c (color_of (client_colors s)) (s1, w1)
              = (Raises ClientDisconnectedError,
                 (mk (base s) (color s) (S (client_colors s))
                     (Some (<[c := <["name" := name]>
                                {["color" := color_of (client_colors s)]}]>
                              (<[c := {["color" :=
                                          color_of (client_colors s)]}]> d)))
                     (port s), w'))).
  { intros nm name rx tx Hrx Hnm Hdn Htx He. unfold handshake. cbn [bind].
    rewrite (recv_str_data s1 _ _ _ _ _ _ Hc1 Hrx Hnm Hdn).
    set (kc1 := mkSock _ _ _ rx _ _). set (w2 := emit _ _).
    assert (Hc2 : live c w2 = Some kc1).
    { unfold w2. rewrite live_emit. apply live_set_sock_eq.
      now apply live_Some in Hc as [_ ?]. }
    rewrite (set_field_ok s1 w2 c _ {["color" := color_of (client_colors s)]}
               "name" name eq_refl)
      by apply lookup_insert_eq.
    cbn [base color client_colors port s1].
    set (s2 := mk _ _ _ _ _).
    unfold send_str, send. cbn [bind].
    rewrite !(check_client_ok s2 _ l c _ _ Hs eq_refl
                (lookup_insert_eq _ _ _)).
    cbn -[is_OSError sock_send lookup insert singletonM color_of].
    unfold sock_send. rewrite Hc2. unfold kc1. cbn [sk_tx]. rewrite Htx.
    cbn -[is_OSError lookup insert singletonM color_of]. rewrite He.
    eauto. }
  assert (Hgarbled : forall nm rx,
            sk_rx kc = Data nm :: rx -> length nm <= PACKAGE_SIZE ->
            Str.decode nm = None ->
            exists w', handshake c (color_of (client_colors s)) (s1, w1)
                       = (Raises UnicodeDecodeError, (s1, w'))).
  { intros nm rx Hrx Hnm Hdn. unfold handshake. cbn [bind].
    rewrite (recv_str_undecodable s1 _ _ _ _ _ Hc1 Hrx Hnm Hdn). eauto. }
  assert (Hcolor_only : forall w',
            get_color c (s1, w')
            = (Returns (color_of (client_colors s)), (s1, w'))
            /\ get_name c (s1, w') = (Raises KeyError, (s1, w'))).
  { intros w'. unfold get_color, get_name. split.
    - eapply get_field_ok;
        [exact Hs | reflexivity | apply lookup_insert_eq
        | apply lookup_singleton_eq].
    - eapply get_field_missing;
        [exact Hs | reflexivity | apply lookup_insert_eq
        | now apply lookup_singleton_ne]. }
  split; [|split].
  - intros rx Hrx. destruct (Hreset rx Hrx) as [w' ->]. cbn [fst snd].
    split; [reflexivity|]. split; [reflexivity|]. apply Hcolor_only.
  - intros nm name rx tx Hrx Hnm Hdn Htx He.
    destruct (Hrefused nm name rx tx Hrx Hnm Hdn Htx He) as [w' ->].
    cbn [fst snd].
    split; [reflexivity|]. split; [reflexivity|].
    unfold get_name, get_modulation. split.
    + eapply get_field_ok;
        [exact Hs | reflexivity | apply lookup_insert_eq
        | apply lookup_insert_eq].
    + eapply get_field_missing;
        [exact Hs | reflexivity | apply lookup_insert_eq |].
      rewrite lookup_insert_ne by discriminate.
      now apply lookup_singleton_ne.
  - intros nm rx Hrx Hnm Hdn. destruct (Hgarbled nm rx Hrx Hnm Hdn)
      as [w' ->]. cbn [fst snd].
    split; [reflexivity|]. split; [reflexivity|]. apply Hcolor_only.
Qed.

Lemma hello_failures_witness :
  (let st := snd (hello (Scenario.server,
                         Scenario.world_of [(1, 7)]
                           [RecvFails ConnectionResetError] [])) in
   fst (hello (Scenario.server,
               Scenario.world_of [(1, 7)]
                 [RecvFails ConnectionResetError] []))
   = Raises ConnectionResetError
   /\ client_colors (fst st) = 1
   /\ get_color 7 st = (Returns RED, st)
   /\ get_name 7 st = (Raises KeyError, st))
  /\ (let st := snd (hello (Scenario.server,
                            Scenario.world_of [(1, 7)]
                              [Data (Str.encode "bob")]
                              [WriteFails BrokenPipeError])) in
      fst (hello (Scenario.server,
                  Scenario.world_of [(1, 7)]
                    [Data (Str.encode "bob")]
                    [WriteFails BrokenPipeError]))
      = Raises ClientDisconnectedError
      /\ client_colors (fst st) = 1
      /\ get_name 7 st = (Returns "bob", st)
      /\ get_modulation 7 st = (Raises KeyError, st))
  /\ (let st := snd (hello (Scenario.server,
                            Scenario.world_of [(1, 7)]
                              [Data [255]%Z] [])) in
      fst (hello (Scenario.server,
                  Scenario.world_of [(1, 7)] [Data [255]%Z] []))
      = Raises UnicodeDecodeError
      /\ client_colors (fst st) = 1
      /\ get_color 7 st = (Returns RED, st)
      /\ get_name 7 st = (Raises KeyError, st)).
Proof.
  split; [|split].
  - apply (proj1 (hello_failures Scenario.server
                    (Scenario.world_of [(1, 7)]
                       [RecvFails ConnectionResetError] [])
                    1 7 1 ∅ (Scenario.listener [(1, 7)])
                    (Scenario.conn [RecvFails ConnectionResetError] [])
                    [] ConnectionResetError
                    eq_refl eq_refl eq_refl eq_refl
                    (fun H => Nat.neq_succ_0 _ (f_equal Nat.pred H))
                    eq_refl) []).
    reflexivity.
  - apply (proj1 (proj2 (hello_failures Scenario.server
                    (Scenario.world_of [(1, 7)]
                       [Data (Str.encode "bob")]
                       [WriteFails BrokenPipeError])
                    1 7 1 ∅ (Scenario.listener [(1, 7)])
                    (Scenario.conn [Data (Str.encode "bob")]
                       [WriteFails BrokenPipeError])
                    [] BrokenPipeError
                    eq_refl eq_refl eq_refl eq_refl
                    (fun H => Nat.neq_succ_0 _ (f_equal Nat.pred H))
                    eq_refl)) (Str.encode "bob") "bob" [] []).
    + reflexivity.
    + vm_compute. lia.
    + reflexivity.
    + reflexivity.
    + reflexivity.
  - apply (proj2 (proj2 (hello_failures Scenario.server
                    (Scenario.world_of [(1, 7)] [Data [255]%Z] [])
                    1 7 1 ∅ (Scenario.listener [(1, 7)])
                    (Scenario.conn [Data [255]%Z] [])
                    [] ConnectionResetError
                    eq_refl eq_refl eq_refl eq_refl
                    (fun H => Nat.neq_succ_0 _ (f_equal Nat.pred H))
                    eq_refl)) [255]%Z []).
    + reflexivity.
    + vm_compute. lia.
    + reflexivity.
Defined.

End HelloMore.

Section LifecycleMore.

Import Net Py Node Server.

(** Saying [bye] twice: the second call finds the client gone from the
    registry, raises [InvalidClientError] and does not close the socket
    again. *)
Theorem bye_twice (s : Server.t) (w : world) (l c : nat)
    (d : gmap nat (gmap string string)) (r : gmap string string) :
  socket (base s) = Some l ->
  clients s = Some d ->
  d !! c = Some r ->
  let st := snd (bye c (s, w)) in
  fst (bye c (s, w)) = Returns tt
  /\ bye c st = (Raises InvalidClientError, st)
  /\ trace (snd st) = trace w ++ [EvClose c].
Proof.
  intros Hs Hd Hr. cbv zeta. rewrite (bye_ok s w l c d r Hs Hd Hr).
  cbn [fst snd]. split; [reflexivity|]. split; [|apply sock_close_trace].
  unfold bye. cbn [bind].
  now rewrite (check_client_unknown
                 (mk (base s) (color s) (client_colors s)
                     (Some (delete c d)) (port s))
                 (sock_close c w) l c (delete c d) Hs eq_refl
                 (lookup_delete_eq _ _)).
Qed.

Lemma bye_twice_witness :
  let w := Scenario.world_of [] [] [] in
  let st := snd (bye 7 (Scenario.server_with_client, w)) in
  fst (bye 7 (Scenario.server_with_client, w)) = Returns tt
  /\ bye 7 st = (Raises InvalidClientError, st)
  /\ trace (snd st) = trace w ++ [EvClose 7].
Proof.
  apply (bye_twice Scenario.server_with_client
           (Scenario.world_of [] [] []) 1 7
           {[ 7 := {[ "color" := RED; "name" := "bob";
                      "modulation" := AM ]} ]}
           {[ "color" := RED; "name" := "bob"; "modulation" := AM ]}).
  - reflexivity.
  - reflexivity.
  - vm_compute. reflexivity.
Defined.

Lemma sock_close_exists (x y : nat) (w : world) (k : sock) :
  socks w !! x = Some k -> exists k', socks (sock_close y w) !! x = Some k'.
Proof.
  intros Hx. destruct (Nat.eq_dec x y) as [->|Hne].
  - destruct (sock_close_closed y w k Hx) as (k' & Hk' & _). eauto.
  - rewrite sock_close_other by exact Hne. eauto.
Qed.

Lemma sock_close_closes (x : nat) (w : world) (k : sock) :
  socks w !! x = Some k -> closed_in x (sock_close x w).
Proof. intros Hx. exact (sock_close_closed x w k Hx). Qed.

Lemma sock_close_keeps_closed (x y : nat) (w : world) :
  closed_in x w -> closed_in x (sock_close y w).
Proof.
  intros (k & Hk & Hc). destruct (Nat.eq_dec x y) as [->|Hne].
  - exact (sock_close_closed y w k Hk).
  - exists k. now rewrite sock_close_other by exact Hne.
Qed.

Lemma close_list_closes (cs : list nat) (x : nat) (w : world) (k : sock) :
  socks w !! x = Some k ->
  (exists k', socks (foldr sock_close w cs) !! x = Some k')
  /\ (In x cs -> closed_in x (foldr sock_close w cs)).
Proof.
  intros Hx. induction cs as [|c cs [[k' Hk'] IH]]; cbn [foldr].
  - split; [eauto|intros []].
  - split; [now apply (sock_close_exists x c _ k')|].
    intros [->|Hin].
    + now apply (sock_close_closes x _ k').
    + apply sock_close_keeps_closed. now apply IH.
Qed.

Lemma close_list_trace (cs : list nat) (w : world) :
  trace (foldr sock_close w cs) = trace w ++ map EvClose (rev cs).
Proof.
  induction cs as [|c cs IH]; cbn [foldr rev map].
  - now rewrite app_nil_r.
  - rewrite sock_close_trace, IH, map_app, app_assoc. reflexivity.
Qed.

(** [disconnect] on an open server closes the socket of every registered
    client and the listening socket, and resets the server: no socket, no
    log, no registry.  The server is then closed: a second [disconnect]
    makes no system call, and [hello] raises [SocketError]. *)
Theorem disconnect_closes_all (s : Server.t) (w : world) (l : nat)
    (d : gmap nat (gmap string string)) :
  socket (base s) = Some l ->
  clients s = Some d ->
  let r := disconnect (s, w) in
  let st := snd r in
  fst r = Returns tt
  /\ fst st = mk (Node.mk None None) (color s) (client_colors s) None (port s)
  /\ (forall c rec k,
         d !! c = Some rec -> socks w !! c = Some k ->
         closed_in c (snd st))
  /\ (forall k, socks w !! l = Some k -> closed_in l (snd st))
  /\ disconnect st = (Returns tt, st)
  /\ hello st = (Raises SocketError, st).
Proof.
  intros Hs Hd. cbv zeta. rewrite (disconnect_ok s w l d Hs Hd).
  cbn [fst snd]. split; [reflexivity|]. split; [reflexivity|].
  split; [|split; [|split; reflexivity]].
  - intros c rec k Hc Hk. apply sock_close_keeps_closed.
    unfold close_all. apply (close_list_closes _ c w k Hk).
    apply (in_map fst _ (c, rec)). apply list_elem_of_In.
    now apply elem_of_map_to_list.
  - intros k Hk. unfold close_all.
    destruct (proj1 (close_list_closes (map fst (map_to_list d)) l w k Hk))
      as [k' Hk'].
    now apply (sock_close_closes l _ k').
Qed.

Lemma disconnect_closes_all_witness :
  let w := Scenario.world_of [] [] [] in
  let r := disconnect (Scenario.server_with_client, w) in
  let st := snd r in
  fst r = Returns tt
  /\ fst st = mk (Node.mk None None) GREEN 1 None (Some DEFAULT_PORT)
  /\ closed_in 7 (snd st)
  /\ closed_in 1 (snd st)
  /\ disconnect st = (Returns tt, st)
  /\ hello st = (Raises SocketError, st).
Proof.
  destruct (disconnect_closes_all Scenario.server_with_client
              (Scenario.world_of [] [] []) 1
              {[ 7 := {[ "color" := RED; "name" := "bob";
                         "modulation" := AM ]} ]} eq_refl eq_refl)
    as (H1 & H2 & H3 & H4 & H5 & H6).
  cbv zeta. split; [exact H1|]. split; [exact H2|].
  split; [|split; [|split; [exact H5|exact H6]]].
  - apply (H3 7 {[ "color" := RED; "name" := "bob"; "modulation" := AM ]}
              (Scenario.conn [] [])); vm_compute; reflexivity.
  - apply (H4 (Scenario.listener [])). vm_compute. reflexivity.
Defined.

End LifecycleMore.

Section FrameMore.

Import Net Py Node Server.

(** [connect] closes nothing.  When it fails the server object is as
    before: a server that was open stays open on its old socket.  Whether
    it fails or not, every socket that existed before is untouched - when
    [connect] is called on a server that is already open, the old
    listening socket and the sockets of the registered clients are left
    open. *)
Theorem connect_frame (env : Env.t) (s : Server.t) (w : world)
    (host : string) (port : pyport) :
  let r := connect env host port (s, w) in
  (forall e, fst r = Raises e -> fst (snd r) = s)
  /\ (forall x, x <> next_id w ->
                socks (snd (snd r)) !! x = socks w !! x).
Proof.
  cbv zeta. rewrite connect_eq.
  destruct (requested env port) as [p|];
    [|split; [reflexivity|reflexivity]].
  pose proof (sock_bind_socks env (next_id w) (with_new_sock w) host p)
    as [Hsocks _].
  destruct (sock_bind env (next_id w) host p (with_new_sock w))
    as [[[]|e|] w']; cbn [snd] in Hsocks.
  - assert (Hlive : live (next_id w) w' = Some new_sock).
    { unfold live. rewrite Hsocks. unfold with_new_sock. cbn [socks].
      now rewrite lookup_insert_eq. }
    unfold sock_listen. rewrite Hlive.
    cbn [fst snd]. split; [discriminate|].
    intros x Hx. cbn [emit set_sock socks]. rewrite Hsocks.
    unfold with_new_sock. cbn [socks].
    now rewrite !lookup_insert_ne by congruence.
  - split; [reflexivity|]. intros x Hx. cbn [fst snd]. rewrite Hsocks.
    unfold with_new_sock. cbn [socks].
    now rewrite lookup_insert_ne by congruence.
  - split; [discriminate|]. intros x Hx. cbn [fst snd]. rewrite Hsocks.
    unfold with_new_sock. cbn [socks].
    now rewrite lookup_insert_ne by congruence.
Qed.

Lemma connect_frame_witness :
  let s := Scenario.server_with_client in
  let w := Scenario.world_of [] [Data [1]%Z] [] in
  fst (snd (connect Scenario.env "" (PortStr "abc") (s, w))) = s
  /\ socks (snd (snd (connect Scenario.env "" (PortInt 33001) (s, w)))) !! 7
     = socks w !! 7.
Proof.
  split.
  - apply (proj1 (connect_frame Scenario.env Scenario.server_with_client
                    (Scenario.world_of [] [Data [1]%Z] []) ""
                    (PortStr "abc")) InvalidPortError).
    reflexivity.
  - apply (proj2 (connect_frame Scenario.env Scenario.server_with_client
                    (Scenario.world_of [] [Data [1]%Z] []) ""
                    (PortInt 33001)) 7).
    cbn. lia.
Defined.

Lemma check_client_pure (c : nat) (st : Server.t * world) :
  snd (check_client c st) = st.
Proof.
  destruct st as [[[[sk|] lg] col pos [d|] pt] w]; cbn; try reflexivity.
  now destruct (d !! c).
Qed.

(** [send] to a client leaves the sockets of the others alone. *)
Lemma server_send_other (c x : nat) (package : list Z) (ensure : bool)
    (s : Server.t) (w : world) :
  x <> c ->
  socks (snd (snd (send c package ensure (s, w)))) !! x = socks w !! x.
Proof.
  intros Hne. unfold send. cbn [bind].
  pose proof (check_client_pure c (s, w)) as Hck.
  destruct (check_client c (s, w)) as [[[]|e|] st']; cbn [snd] in Hck;
    subst st'; try reflexivity.
  destruct ensure; cbn -[is_OSError sock_send sock_sendall].
  - pose proof (sock_send_other c x package w Hne) as H.
    destruct (sock_send c package w) as [[n|e|] w']; cbn [snd] in *;
      try exact H.
    now destruct (is_OSError e).
  - pose proof (sock_sendall_other c x package w Hne) as H.
    destruct (sock_sendall c package w) as [[n|e|] w']; cbn [snd] in *;
      try exact H.
    now destruct (is_OSError e).
Qed.

Lemma send_each_other (targets : list nat) (x : nat) (package : list Z)
    (ensure : bool) :
  ~ In x targets ->
  forall (s : Server.t) (w : world),
    socks (snd (snd (send_each targets package ensure (s, w)))) !! x
    = socks w !! x.
Proof.
  induction targets as [|c cs IH]; intros Hx s w; [reflexivity|].
  cbn [send_each bind].
  pose proof (server_send_other c x package ensure s w) as Hc.
  destruct (send c package ensure (s, w)) as [[o|e|] [s1 w1]];
    cbn [snd] in *.
  - rewrite IH; [apply Hc|]; intros H; apply Hx; simpl; auto.
  - apply Hc. intros ->. apply Hx. simpl. auto.
  - apply Hc. intros ->. apply Hx. simpl. auto.
Qed.

(** [broadcast] writes only to registered clients that are not on the
    black list: the socket of a client on the black list, and any socket
    that is not in the registry - the listening socket among them - is
    left as it is, however the broadcast ends. *)
Theorem broadcast_frame (s : Server.t) (w : world) (l x : nat)
    (d : gmap nat (gmap string string)) (package : list Z)
    (black_list : list nat) (ensure : bool) :
  socket (base s) = Some l ->
  clients s = Some d ->
  In x black_list \/ d !! x = None ->
  socks (snd (snd (broadcast package black_list ensure (s, w)))) !! x
  = socks w !! x.
Proof.
  intros Hs Hd Hx.
  destruct s as [[sk lg] col pos cl pt]. cbn in Hs, Hd. subst sk cl.
  unfold broadcast. cbn -[send_each elements dom list_to_set difference].
  apply send_each_other. intros Hin.
  apply list_elem_of_In, elem_of_elements, elem_of_difference in Hin
    as [Hdom Hbl].
  destruct Hx as [Hx|Hx].
  - apply Hbl, elem_of_list_to_set, list_elem_of_In, Hx.
  - apply elem_of_dom in Hdom as [rec Hrec]. congruence.
Qed.

Lemma broadcast_frame_witness :
  let s := Server.mk (Node.mk (Some 1) (Some [])) GREEN 2
             (Some {[ 7 := {[ "color" := RED ]};
                      9 := {[ "color" := GREEN ]} ]})
             (Some DEFAULT_PORT) in
  let w := mkWorld {[ 1 := Scenario.listener [];
                      7 := Scenario.conn [] [];
                      9 := Scenario.conn [] [] ]} 10 [DEFAULT_PORT] [] in
  socks (snd (snd (broadcast [1; 2]%Z [9] true (s, w)))) !! 9
  = socks w !! 9.
Proof.
  apply (broadcast_frame
           (Server.mk (Node.mk (Some 1) (Some [])) GREEN 2
              (Some {[ 7 := {[ "color" := RED ]};
                       9 := {[ "color" := GREEN ]} ]})
              (Some DEFAULT_PORT))
           (mkWorld {[ 1 := Scenario.listener [];
                       7 := Scenario.conn [] [];
                       9 := Scenario.conn [] [] ]} 10 [DEFAULT_PORT] [])
           1 9
           {[ 7 := {[ "color" := RED ]}; 9 := {[ "color" := GREEN ]} ]}
           [1; 2]%Z [9] true).
  - reflexivity.
  - reflexivity.
  - left. simpl. auto.
Defined.

(** The log of an open server grows at its end: two messages logged one
    after the other follow the earlier entries in that order; a call
    without a message changes nothing; no socket is touched. *)
Theorem log_appends (s : Server.t) (w : world) (l : nat)
    (lg : list string) (m1 m2 : string) :
  socket (base s) = Some l ->
  logs (base s) = Some lg ->
  let st := snd (log (Some m1) (s, w)) in
  log (Some m2) st
  = (Returns tt,
     (mk (Node.mk (Some l) (Some (lg ++ [m1; m2]))) (color s)
         (client_colors s) (clients s) (port s), w))
  /\ log None (s, w) = (Returns tt, (s, w)).
Proof.
  intros Hs Hl. destruct s as [[sk lg'] col pos cl pt]. cbn in Hs, Hl.
  subst sk lg'. cbv zeta. cbn. rewrite <- app_assoc. now split.
Qed.

Lemma log_appends_witness :
  let st := snd (log (Some "b") (Scenario.server, Scenario.world_of [] [] [])) in
  log (Some "c") st
  = (Returns tt,
     (mk (Node.mk (Some 1) (Some ([] ++ ["b"; "c"]))) GREEN 0 (Some ∅)
         (Some DEFAULT_PORT), Scenario.world_of [] [] []))
  /\ log None (Scenario.server, Scenario.world_of [] [] [])
     = (Returns tt, (Scenario.server, Scenario.world_of [] [] [])).
Proof.
  apply (log_appends Scenario.server (Scenario.world_of [] [] []) 1 []
           "b" "c"); reflexivity.
Defined.

End FrameMore.

Section ClientMore.

Import Net Py Node.

(** [Client.disconnect] on a connected client closes its socket and
    resets socket, log and modulation, and keeps the name and the color.
    The client is then closed: a second [disconnect] makes no system call,
    and [recv] and [send] raise [SocketError]. *)
Theorem client_disconnect (c : Client.t) (w : world) (x : nat) (k : sock)
    (package : list Z) (ensure : bool) :
  socket (Client.base c) = Some x ->
  socks w !! x = Some k ->
  let r := Client.disconnect (c, w) in
  let st := snd r in
  fst r = Returns tt
  /\ fst st = Client.mk (Node.mk None None) (Client.name c) None
                        (Client.color c)
  /\ closed_in x (snd st)
  /\ trace (snd st) = trace w ++ [EvClose x]
  /\ Client.disconnect st = (Returns tt, st)
  /\ Client.recv st = (Raises SocketError, st)
  /\ Client.send package ensure st = (Raises SocketError, st).
Proof.
  intros Hc Hk. destruct c as [[sk lg] nm md cl]. cbn in Hc. subst sk.
  cbv zeta. cbn -[sock_close].
  split; [reflexivity|]. split; [reflexivity|].
  split; [exact (sock_close_closed x w k Hk)|].
  split; [apply sock_close_trace|]. repeat split; reflexivity.
Qed.

Lemma client_disconnect_witness :
  let w := Scenario.world_of [] [] [] in
  let r := Client.disconnect (Scenario.client, w) in
  let st := snd r in
  fst r = Returns tt
  /\ fst st = Client.mk (Node.mk None None) (Some "bob") None (Some RED)
  /\ closed_in 7 (snd st)
  /\ trace (snd st) = trace w ++ [EvClose 7]
  /\ Client.disconnect st = (Returns tt, st)
  /\ Client.recv st = (Raises SocketError, st)
  /\ Client.send [1]%Z true st = (Raises SocketError, st).
Proof.
  apply (client_disconnect Scenario.client (Scenario.world_of [] [] []) 7
           (Scenario.conn [] []) [1]%Z true).
  - reflexivity.
  - vm_compute. reflexivity.
Defined.

End ClientMore.

Section ColorMore.

Import Net Py Node Server.

(** The handshake with a client that plays its part, with what it leaves
    on the wire. *)
Lemma handshake_wire (s1 : Server.t) (w1 : world) (l c : nat)
    (d1 : gmap nat (gmap string string)) (r : gmap string string)
    (col : string) (kc : sock) (nm md : list Z) (rx : list recv_ev)
    (name modn : string) :
  socket (base s1) = Some l ->
  clients s1 = Some d1 ->
  d1 !! c = Some r ->
  live c w1 = Some kc ->
  sk_rx kc = Data nm :: Data md :: rx ->
  length nm <= PACKAGE_SIZE ->
  length md <= PACKAGE_SIZE ->
  Str.decode nm = Some name ->
  Str.decode md = Some modn ->
  accepts_write kc = true ->
  exists s' w' kc',
    handshake c col (s1, w1) = (Returns c, (s', w'))
    /\ live c w' = Some kc'
    /\ sk_wire kc'
       = sk_wire kc
         ++ firstn (written kc (Str.encode col)) (Str.encode col).
Proof.
  intros Hs Hd Hr Hc Hrx Hnm Hmd Hdn Hdm Htx.
  assert (Hclosed : sk_closed kc = false) by now apply live_Some in Hc.
  set (kc1 := mkSock (sk_closed kc) (sk_backlog kc) (sk_pending kc)
                     (Data md :: rx) (sk_tx kc) (sk_wire kc)).
  set (w2 := emit (EvRecv c (Returns nm)) (set_sock c kc1 w1)).
  assert (Hc2 : live c w2 = Some kc1)
    by (unfold w2; rewrite live_emit; now apply live_set_sock_eq).
  set (s2 := mk (base s1) (color s1) (client_colors s1)
                (Some (<[c := <["name" := name]> r]> d1))
                (port s1)).
  destruct (sock_send_written c (Str.encode col) w2 kc1 Hc2 Htx)
    as (kc2 & Hsend & Hwire & Hrx2 & Hcl2).
  set (n := written kc1 (Str.encode col)) in *.
  set (w3 := emit (EvWrite c (Returns n)) (set_sock c kc2 w2)) in *.
  assert (Hc3 : live c w3 = Some kc2)
    by (unfold w3; rewrite live_emit; now apply live_set_sock_eq).
  set (kc3 := mkSock (sk_closed kc2) (sk_backlog kc2) (sk_pending kc2)
                     rx (sk_tx kc2) (sk_wire kc2)).
  set (w4 := emit (EvRecv c (Returns md)) (set_sock c kc3 w3)).
  exists (mk (base s2) (color s2) (client_colors s2)
             (Some (<[c := <["modulation" := modn]>
                              (<["name" := name]> r)]>
                      (<[c := <["name" := name]> r]> d1)))
             (port s2)), w4, kc3.
  split; [|split].
  - unfold handshake. cbn [bind].
    rewrite (recv_str_data s1 w1 c kc nm (Data md :: rx) name
               Hc Hrx Hnm Hdn).
    fold kc1. fold w2.
    rewrite (set_field_ok s1 w2 c d1 r "name" name Hd Hr).
    fold s2. unfold send_str, send. cbn [bind].
    rewrite !(check_client_ok s2 w2 l c _ _ Hs eq_refl
                (lookup_insert_eq _ _ _)).
    cbn -[is_OSError sock_send sock_recv lookup insert singletonM
          recv_str set_field Str.encode emit set_sock live].
    rewrite Hsend.
    cbn -[is_OSError sock_recv lookup insert singletonM recv_str set_field
          Str.encode emit set_sock live].
    fold w3.
    rewrite (recv_str_data s2 w3 c kc2 md rx modn Hc3 Hrx2 Hmd Hdm).
    fold kc3. fold w4.
    now rewrite (set_field_ok s2 w4 c _ _ "modulation" modn
                   eq_refl (lookup_insert_eq _ _ _)).
  - unfold w4. rewrite live_emit. now apply live_set_sock_eq.
  - unfold kc3. cbn [sk_wire]. exact Hwire.
Qed.

(** The color on the wire, when the name and the modulation arrive as
    well-formed UTF-8.  [hello] sends the color with one write and does
    not look at the number of bytes written: when the kernel takes the
    whole write, the client finds the color on its connection; when the
    kernel takes only [m] bytes, the client finds the first [m] bytes of
    the color, and [hello] returns the client all the same. *)
Theorem hello_sends_color
    (s : Server.t) (w : world) (l c polls : nat)
    (d : gmap nat (gmap string string)) (k kc : sock)
    (rest : list (nat * nat)) (nm md : list Z) (rx : list recv_ev)
    (name modn : string) :
  socket (base s) = Some l ->
  clients s = Some d ->
  live l w = Some k ->
  sk_pending k = (polls, c) :: rest ->
  c <> l ->
  live c w = Some kc ->
  sk_rx kc = Data nm :: Data md :: rx ->
  length nm <= PACKAGE_SIZE ->
  length md <= PACKAGE_SIZE ->
  Str.decode nm = Some name ->
  Str.decode md = Some modn ->
  let r := hello (s, w) in
  let tag := Str.encode (color_of (client_colors s)) in
  (sk_tx kc = [] ->
   fst r = Returns c
   /\ exists kc', live c (snd (snd r)) = Some kc'
                  /\ sk_wire kc' = sk_wire kc ++ tag)
  /\ (forall m tx,
         sk_tx kc = Accepts m :: tx ->
         fst r = Returns c
         /\ exists kc', live c (snd (snd r)) = Some kc'
                        /\ sk_wire kc' = sk_wire kc ++ firstn m tag).
Proof.
  intros Hs Hd Hl Hp Hne Hc Hrx Hnm Hmd Hdn Hdm. cbv zeta.
  rewrite (hello_accepts s w l c polls d k rest Hs Hd Hl Hp).
  set (s1 := mk _ _ _ _ _). set (w1 := mkWorld _ _ _ _).
  assert (Hc1 : live c w1 = Some kc).
  { apply live_Some in Hc as [Hc Hcl]. apply live_Some. split; [|easy].
    unfold w1. cbn [socks]. now rewrite lookup_insert_ne by congruence. }
  assert (Hrun : accepts_write kc = true ->
            exists s' w' kc',
              handshake c (color_of (client_colors s)) (s1, w1)
              = (Returns c, (s', w'))
              /\ live c w' = Some kc'
              /\ sk_wire kc'
                 = sk_wire kc
                   ++ firstn (written kc
                                (Str.encode (color_of (client_colors s))))
                        (Str.encode (color_of (client_colors s)))).
  { intros Htx.
    apply (handshake_wire s1 w1 l c _ _ _ kc nm md rx name modn Hs
             eq_refl (lookup_insert_eq _ _ _) Hc1 Hrx Hnm Hmd Hdn Hdm
             Htx). }
  split.
  - intros Htx.
    destruct Hrun as (s' & w' & kc' & -> & Hl' & Hw').
    { unfold accepts_write. now rewrite Htx. }
    cbn [fst snd]. split; [reflexivity|]. exists kc'. split; [exact Hl'|].
    rewrite Hw'. unfold written. rewrite Htx. now rewrite firstn_all.
  - intros m tx Htx.
    destruct Hrun as (s' & w' & kc' & -> & Hl' & Hw').
    { unfold accepts_write. now rewrite Htx. }
    cbn [fst snd]. split; [reflexivity|]. exists kc'. split; [exact Hl'|].
    rewrite Hw'. unfold written. rewrite Htx. f_equal.
    destruct (Nat.le_gt_cases m
                (length (Str.encode (color_of (client_colors s)))))
      as [Hle|Hgt].
    + now rewrite length_firstn, Nat.min_l by exact Hle.
    + rewrite (firstn_all2 (n := m)) by lia. now rewrite firstn_all.
Qed.

Lemma hello_sends_color_witness :
  (let r := hello (Scenario.server,
                   Scenario.world_of [(0, 7)]
                     [Data (Str.encode "bob"); Data (Str.encode "am")] []) in
   fst r = Returns 7
   /\ exists kc', live 7 (snd (snd r)) = Some kc'
                  /\ sk_wire kc' = [] ++ Str.encode RED)
  /\ (let r := hello (Scenario.server,
                      Scenario.world_of [(0, 7)]
                        [Data (Str.encode "bob"); Data (Str.encode "am")]
                        [Accepts 2]) in
      fst r = Returns 7
      /\ exists kc', live 7 (snd (snd r)) = Some kc'
                     /\ sk_wire kc' = [] ++ firstn 2 (Str.encode RED)).
Proof.
  split.
  - apply (proj1 (hello_sends_color Scenario.server
                    (Scenario.world_of [(0, 7)]
                       [Data (Str.encode "bob"); Data (Str.encode "am")] [])
                    1 7 0 ∅ (Scenario.listener [(0, 7)])
                    (Scenario.conn
                       [Data (Str.encode "bob"); Data (Str.encode "am")] [])
                    [] (Str.encode "bob") (Str.encode "am") [] "bob" "am"
                    eq_refl eq_refl eq_refl eq_refl
                    (fun H => Nat.neq_succ_0 _ (f_equal Nat.pred H))
                    eq_refl eq_refl
                    ltac:(vm_compute; lia) ltac:(vm_compute; lia)
                    eq_refl eq_refl)).
    reflexivity.
  - apply (proj2 (hello_sends_color Scenario.server
                    (Scenario.world_of [(0, 7)]
                       [Data (Str.encode "bob"); Data (Str.encode "am")]
                       [Accepts 2])
                    1 7 0 ∅ (Scenario.listener [(0, 7)])
                    (Scenario.conn
                       [Data (Str.encode "bob"); Data (Str.encode "am")]
                       [Accepts 2])
                    [] (Str.encode "bob") (Str.encode "am") [] "bob" "am"
                    eq_refl eq_refl eq_refl eq_refl
                    (fun H => Nat.neq_succ_0 _ (f_equal Nat.pred H))
                    eq_refl eq_refl
                    ltac:(vm_compute; lia) ltac:(vm_compute; lia)
                    eq_refl eq_refl)
             2 []).
    reflexivity.
Defined.

End ColorMore.
